(** * A shallow embedding of [utm_visualizer.py]

    The file models the two pieces of [src/utm_visualizer.py] that carry
    logic: the class [TuringMachine] (tape, head, state, transition table,
    [ensure_head_in_bounds], [step], [reset]) and the function
    [parse_tm_description], together with the two GUI callbacks that feed the
    parser's result into a machine ([parse_and_create_tm], [reset_tm]).
    Of the window it further models the example texts of [load_example],
    the cells [update_display] draws, and the callbacks behind the buttons
    and the timer ([step_once], [run_auto], [_run_step], [stop_run]).

    Conventions.
    - A Python [str] is a Rocq [string]; symbols and states are strings (the
      source never checks that a symbol is a single character).  Characters
      below 128 behave as in Python; the case mappings, white space and line
      boundaries that Python defines for characters outside ASCII are not
      modelled (such characters are ordinary, caseless, non-blank here).
      The properties of the parser are therefore stated for texts of ASCII
      characters ([ascii_only]); [step] only compares [move.upper()] with
      "R" and "L", where the model agrees with Python on every string.
    - A Python [int] is a [Z]; a Python [list] is a [list]; the [dict] of
      transitions is a [gmap] keyed by pairs (state, symbol).
    - An exception is a value of [exn] returned on the left of a sum.
    - Mutation of [self] is explicit state passing: a method takes the
      machine and returns the machine after the call. *)

From Stdlib Require Import ZArith Ascii String.
From stdpp Require Import gmap strings list fin_maps.

Local Open Scope Z_scope.
Local Open Scope string_scope.

(** ** Exceptions and the error monad *)

(** The exceptions the modelled code can raise: [IndexError] from list
    subscripting, and the two [ValueError]s of tuple unpacking.  The unpacking
    errors carry what Python's message carries, the expected and the actual
    number of values, and nothing else. *)
Inductive exn : Type :=
  | IndexError
  | ValueError_not_enough (expected got : nat)
  | ValueError_too_many (expected : nat).

Definition result (A : Type) : Type := exn + A.

Definition raise {A : Type} (e : exn) : result A := inl e.

#[global] Instance result_ret : MRet result := fun A a => inr a.
#[global] Instance result_bind : MBind result := fun A B k c =>
  match c with
  | inl e => inl e
  | inr a => k a
  end.

Definition ret {A : Type} (a : A) : result A := mret a.

(** ** Python list subscripting *)

(** [l[i]] and [l[i] = x]: an index in [0, len) is taken as it is, an index
    in [-len, 0) counts from the end, anything else raises [IndexError]. *)
Definition py_index {A : Type} (l : list A) (i : Z) : option nat :=
  let n := Z.of_nat (length l) in
  if decide (0 <= i < n) then Some (Z.to_nat i)
  else if decide (- n <= i < 0) then Some (Z.to_nat (n + i))
  else None.

Definition getitem {A : Type} (l : list A) (i : Z) : result A :=
  match py_index l i with
  | Some k => match l !! k with Some x => ret x | None => raise IndexError end
  | None => raise IndexError
  end.

Definition setitem {A : Type} (l : list A) (i : Z) (x : A) : result (list A) :=
  match py_index l i with
  | Some k => ret (<[k:=x]> l)
  | None => raise IndexError
  end.

(** ** Python string operations *)

Definition upper_char (c : ascii) : ascii :=
  let n := nat_of_ascii c in
  if ((97 <=? n) && (n <=? 122))%nat then ascii_of_nat (n - 32) else c.

Definition lower_char (c : ascii) : ascii :=
  let n := nat_of_ascii c in
  if ((65 <=? n) && (n <=? 90))%nat then ascii_of_nat (n + 32) else c.

Fixpoint string_map (f : ascii -> ascii) (s : string) : string :=
  match s with
  | EmptyString => EmptyString
  | String c s' => String (f c) (string_map f s')
  end.

(** [s.upper()] and [s.lower()] for ASCII letters; every other character is
    left as it is, so the two are Python's only on ASCII strings (and, for
    the comparisons with "R" and "L" in [step], on every string). *)
Definition upper (s : string) : string := string_map upper_char s.
Definition lower (s : string) : string := string_map lower_char s.

(** [list(s)]: the characters of [s], each a string of length one. *)
Fixpoint chars (s : string) : list string :=
  match s with
  | EmptyString => []
  | String c s' => String c EmptyString :: chars s'
  end.

(** [s.startswith(p)] is [String.prefix p s]; [s.find(sub)], with [None] for
    Python's [-1], so that [sub in s] is [is_Some (find sub s)]. *)
Fixpoint find (sub s : string) : option nat :=
  if String.prefix sub s then Some O
  else match s with
       | EmptyString => None
       | String _ s' => S <$> find sub s'
       end.

Definition contains (sub s : string) : bool :=
  match find sub s with Some _ => true | None => false end.

Fixpoint string_take (n : nat) (s : string) : string :=
  match n, s with
  | S n', String c s' => String c (string_take n' s')
  | _, _ => EmptyString
  end.

Fixpoint string_drop (n : nat) (s : string) : string :=
  match n, s with
  | S n', String _ s' => string_drop n' s'
  | _, _ => s
  end.

(** [s.split(sep, maxsplit)] for a non-empty separator and an explicit
    [maxsplit], which is how the source always calls it: at most [maxsplit]
    cuts, at the leftmost occurrences. *)
Fixpoint split (sep : string) (maxsplit : nat) (s : string) : list string :=
  match maxsplit with
  | O => [s]
  | S m =>
    match find sep s with
    | None => [s]
    | Some i => string_take i s :: split sep m (string_drop (i + String.length sep) s)
    end
  end.

(** The characters [str.isspace] accepts below 128: tab, line feed, vertical
    tab, form feed, carriage return, the four separators 28..31, and space. *)
Definition is_space (c : ascii) : bool :=
  let n := nat_of_ascii c in
  ((9 <=? n) && (n <=? 13) || (28 <=? n) && (n <=? 31) || (n =? 32))%nat.

Fixpoint lstrip (s : string) : string :=
  match s with
  | EmptyString => EmptyString
  | String c s' => if is_space c then lstrip s' else s
  end.

Fixpoint rstrip (s : string) : string :=
  match s with
  | EmptyString => EmptyString
  | String c s' =>
    match rstrip s' with
    | EmptyString => if is_space c then EmptyString else String c EmptyString
    | r => String c r
    end
  end.

(** [s.strip()], for the ASCII white space only. *)
Definition strip (s : string) : string := rstrip (lstrip s).

(** The line boundaries of [str.splitlines] below 128: line feed, vertical
    tab, form feed, carriage return, and the separators 28..30; a carriage
    return followed by a line feed is one boundary. *)
Definition is_linebreak (c : ascii) : bool :=
  let n := nat_of_ascii c in
  ((10 <=? n) && (n <=? 13) || (28 <=? n) && (n <=? 30))%nat.

(** [cur] is the line being read, reversed; [after_cr] says that the
    previous character was a carriage return, whose line is already closed. *)
Fixpoint splitlines_from (cur : string) (after_cr : bool) (s : string) : list string :=
  match s with
  | EmptyString =>
    match cur with EmptyString => [] | _ => [String.rev cur] end
  | String c s' =>
    if after_cr && bool_decide (c = "010"%char) then splitlines_from EmptyString false s'
    else if is_linebreak c then
      String.rev cur :: splitlines_from EmptyString (bool_decide (c = "013"%char)) s'
    else splitlines_from (String c cur) false s'
  end.

(** [s.splitlines()], for the ASCII line boundaries only. *)
Definition splitlines (s : string) : list string := splitlines_from EmptyString false s.

(** ** The machine *)

Module TuringMachine.

Record t : Type := mk {
  blank : string;
  tape : list string;
  head : Z;
  start_state : string;
  state : string;
  accept_state : string;
  reject_state : string;
  transitions : gmap (string * string) (string * string * string)
}.

Definition set_tape (tm : t) (x : list string) : t :=
  mk (blank tm) x (head tm) (start_state tm) (state tm)
     (accept_state tm) (reject_state tm) (transitions tm).

Definition set_head (tm : t) (x : Z) : t :=
  mk (blank tm) (tape tm) x (start_state tm) (state tm)
     (accept_state tm) (reject_state tm) (transitions tm).

Definition set_state (tm : t) (x : string) : t :=
  mk (blank tm) (tape tm) (head tm) (start_state tm) x
     (accept_state tm) (reject_state tm) (transitions tm).

(** [TuringMachine.__init__]; [transitions=None] is [None], and
    [transitions or {}] turns both [None] and the empty dict into the empty
    dict. *)
Definition __init__ (tape_str : string)
    (transitions : option (gmap (string * string) (string * string * string)))
    (start_state accept_state reject_state blank : string) : t :=
  {| blank := blank;
     tape := if decide (tape_str = "") then [blank] else chars tape_str;
     head := 0;
     start_state := start_state;
     state := start_state;
     accept_state := accept_state;
     reject_state := reject_state;
     transitions := default ∅ transitions |}.

(** [ensure_head_in_bounds]: [[self.blank] * n] is [replicate]. *)
Definition ensure_head_in_bounds (tm : t) : t :=
  if decide (head tm < 0) then
    let add := replicate (Z.to_nat (Z.abs (head tm))) (blank tm) in
    let tm := set_tape tm (add ++ tape tm) in
    set_head tm (head tm + Z.of_nat (length add))
  else if decide (head tm >= Z.of_nat (length (tape tm))) then
    let add :=
      replicate (Z.to_nat (head tm - Z.of_nat (length (tape tm)) + 1)) (blank tm) in
    set_tape tm (tape tm ++ add)
  else tm.

(** [step]: the returned boolean is the method's return value. *)
Definition step (tm : t) : result (bool * t) :=
  if bool_decide (state tm = accept_state tm)
     || bool_decide (state tm = reject_state tm)
  then ret (false, tm)
  else
    let tm := ensure_head_in_bounds tm in
    symbol ← getitem (tape tm) (head tm);
    let key := (state tm, symbol) in
    match transitions tm !! key with
    | None => ret (false, set_state tm (reject_state tm))
    | Some (write, move, new_state) =>
      tape' ← setitem (tape tm) (head tm) write;
      let tm := set_tape tm tape' in
      let tm :=
        if bool_decide (upper move = "R") then set_head tm (head tm + 1)
        else if bool_decide (upper move = "L") then set_head tm (head tm - 1)
        else tm in
      ret (true, set_state tm new_state)
    end.

(** [reset]. *)
Definition reset (tm : t) (tape_str : string) : t :=
  let tm :=
    set_tape tm (if decide (tape_str = "") then [blank tm] else chars tape_str) in
  let tm := set_head tm 0 in
  set_state tm (start_state tm).

(** [n] successive calls of [step]: the return values in call order and
    the machine after the last call. *)
Fixpoint steps (n : nat) (tm : t) : result (list bool * t) :=
  match n with
  | O => ret ([], tm)
  | S n' =>
    '(b, tm') ← step tm;
    '(bs, tm'') ← steps n' tm';
    ret (b :: bs, tm'')
  end.

Definition halted (tm : t) : Prop :=
  state tm = accept_state tm \/ state tm = reject_state tm.

End TuringMachine.

(** ** The parser *)

(** Unpacking a list into two or three names, as in [a, b = xs]. *)
Definition unpack2 {A : Type} (l : list A) : result (A * A) :=
  match l with
  | [a; b] => ret (a, b)
  | _ =>
    if decide (length l < 2)%nat then raise (ValueError_not_enough 2 (length l))
    else raise (ValueError_too_many 2)
  end.

Definition unpack3 {A : Type} (l : list A) : result (A * A * A) :=
  match l with
  | [a; b; c] => ret (a, b, c)
  | _ =>
    if decide (length l < 3)%nat then raise (ValueError_not_enough 3 (length l))
    else raise (ValueError_too_many 3)
  end.

(** The local variables of [parse_tm_description] that the loop updates. *)
Record locals : Type := mk_locals {
  l_transitions : gmap (string * string) (string * string * string);
  l_start_state : string;
  l_accept_state : string;
  l_reject_state : string;
  l_tape : string
}.

Definition initial_locals : locals :=
  mk_locals ∅ "q0" "q_accept" "q_reject" "_".

(** One iteration of the loop over [text.splitlines()]. *)
Definition parse_line (raw : string) (v : locals) : result locals :=
  let line := strip raw in
  if bool_decide (line = "") || String.prefix "#" line then ret v
  else if contains "->" line then
    '(left', right') ← unpack2 (split "->" 1 line);
    '(state, symbol) ← unpack2 (strip <$> split "," 1 left');
    '(write_symbol, move, new_state) ← unpack3 (strip <$> split "," 2 right');
    let symbol := if bool_decide (lower symbol = "blank") then "_" else symbol in
    let write_symbol :=
      if bool_decide (lower write_symbol = "blank") then "_" else write_symbol in
    ret (mk_locals
           (<[(state, symbol) := (write_symbol, upper move, new_state)]> (l_transitions v))
           (l_start_state v) (l_accept_state v) (l_reject_state v) (l_tape v))
  else if contains ":" line then
    '(key, val) ← unpack2 (strip <$> split ":" 1 line);
    let key := upper key in
    if bool_decide (key = "START") then
      ret (mk_locals (l_transitions v) val (l_accept_state v) (l_reject_state v) (l_tape v))
    else if bool_decide (key = "ACCEPT") then
      ret (mk_locals (l_transitions v) (l_start_state v) val (l_reject_state v) (l_tape v))
    else if bool_decide (key = "REJECT") then
      ret (mk_locals (l_transitions v) (l_start_state v) (l_accept_state v) val (l_tape v))
    else if bool_decide (key = "TAPE") then
      ret (mk_locals (l_transitions v) (l_start_state v) (l_accept_state v)
             (l_reject_state v) (if bool_decide (val = "") then "_" else val))
    else ret v
  else ret v.

Fixpoint parse_lines (lines : list string) (v : locals) : result locals :=
  match lines with
  | [] => ret v
  | raw :: rest => v' ← parse_line raw v; parse_lines rest v'
  end.

(** [parse_tm_description]: the returned 5-tuple. *)
Definition parse_tm_description (text : string)
  : result (gmap (string * string) (string * string * string)
            * string * string * string * string) :=
  v ← parse_lines (splitlines text) initial_locals;
  ret (l_transitions v, l_start_state v, l_accept_state v, l_reject_state v, l_tape v).

(** The lines on which an iteration of the loop raises, read off the code: a
    transition line (not blank, not a comment, with an arrow) for which one
    of the two unpacking assignments fails, that is, the code's own split of
    the left side (at most one cut) does not give two parts or its split of
    the right side (at most two cuts) does not give three.  Stated in terms
    of fields in [too_few_fields] below. *)
Definition malformed_transition_line (raw : string) : bool :=
  let line := strip raw in
  negb (bool_decide (line = "")) && negb (String.prefix "#" line)
  && contains "->" line
  && match split "->" 1 line with
     | [left'; right'] =>
       negb (length (split "," 1 left') =? 2)%nat
       || negb (length (split "," 2 right') =? 3)%nat
     | _ => true
     end.

(** ** The callers of the parser *)

(** The window's attribute [self.tm] ([None] until a machine is created) is
    the state; [raw] is the text of the description box.  The dialogs and the
    canvas are not modelled. *)
Module UTMVisualizer.

Definition parse_and_create_tm (raw : string) (tm : option TuringMachine.t)
  : option TuringMachine.t :=
  match parse_tm_description raw with
  | inl _ => tm
  | inr (transitions, start, accept, reject, tape) =>
    Some (TuringMachine.__init__ tape (Some transitions) start accept reject "_")
  end.

Definition reset_tm (raw : string) (tm : option TuringMachine.t)
  : option TuringMachine.t :=
  match tm with
  | None => None
  | Some m =>
    match parse_tm_description raw with
    | inl _ => Some m
    | inr (transitions, start, accept, reject, tape) =>
      let m :=
        TuringMachine.mk (TuringMachine.blank m) (TuringMachine.tape m)
          (TuringMachine.head m) start (TuringMachine.state m) accept reject
          transitions in
      Some (TuringMachine.reset m tape)
    end
  end.

End UTMVisualizer.

(** ** The machines of the scenarios *)

(** Scenario 1, "Replace a->b". *)
Definition scenario1 : TuringMachine.t :=
  TuringMachine.__init__ "aabb_"
    (Some (<[("q0", "a") := ("b", "R", "q0")]>
          (<[("q0", "b") := ("b", "R", "q0")]>
          (<[("q0", "_") := ("_", "S", "q_accept")]> ∅))))
    "q0" "q_accept" "q_reject" "_".

(** Scenario 2, a symbol without a rule: the configuration before the second
    call of [step]. *)
Definition scenario2 : TuringMachine.t :=
  TuringMachine.__init__ "10"
    (Some (<[("q0", "1") := ("1", "R", "q0")]> ∅))
    "q0" "q_accept" "q_reject" "_".

(** Scenario 3, left extension. *)
Definition scenario3 : TuringMachine.t :=
  TuringMachine.__init__ "x"
    (Some (<[("q0", "x") := ("x", "L", "q1")]> ∅))
    "q0" "q_accept" "q_reject" "_".


(** ** Notions used in the statements *)

(** The head after the move named by [move]. *)
Definition moved (move : string) (h : Z) : Z :=
  if bool_decide (upper move = "R") then h + 1
  else if bool_decide (upper move = "L") then h - 1
  else h.

(** The exceptions of unpacking too few values into two or three names. *)
Definition unpack_error (e : exn) : Prop :=
  exists expected got,
    e = ValueError_not_enough expected got
    /\ (got < expected)%nat /\ (expected = 2 \/ expected = 3)%nat.

(** ** The rest of the window, and notions used in the further properties *)

Import TuringMachine.

(** The fields a call of [step] never assigns. *)
Definition same_program (tm tm' : t) : Prop :=
  transitions tm' = transitions tm
  /\ blank tm' = blank tm
  /\ start_state tm' = start_state tm
  /\ accept_state tm' = accept_state tm
  /\ reject_state tm' = reject_state tm.

(** The head stays within one cell of the tape. *)
Definition head_near_tape (tm : t) : Prop :=
  -1 <= head tm <= Z.of_nat (length (tape tm)).

Definition nl : string := String "010" EmptyString.

(** The three texts of [load_example], after [.strip()]. *)
Definition sample_replace : string :=
  "# Replace all 'a' with 'b' then halt" ++ nl ++
  "q0,a -> b,R,q0" ++ nl ++
  "q0,b -> b,R,q0" ++ nl ++
  "q0,_ -> _,S,q_accept" ++ nl ++
  "START: q0" ++ nl ++
  "ACCEPT: q_accept" ++ nl ++
  "REJECT: q_reject" ++ nl ++
  "TAPE: aaaaaaaaaaaaaaaaaaaaaaaaabbbb_".

Definition sample_move_right : string :=
  "# Move right until blank then accept" ++ nl ++
  "q0,a -> a,R,q0" ++ nl ++
  "q0,b -> b,R,q0" ++ nl ++
  "q0,_ -> _,S,q_accept" ++ nl ++
  "START: q0" ++ nl ++
  "ACCEPT: q_accept" ++ nl ++
  "REJECT: q_reject" ++ nl ++
  "TAPE: aaaaaaaaaaaaaaaaaaaaabbbbbbbb_".

Definition sample_unary_increment : string :=
  "# Unary increment: add one more 1 then halt" ++ nl ++
  "q0,1 -> 1,R,q0" ++ nl ++
  "q0,_ -> 1,S,q_accept" ++ nl ++
  "START: q0" ++ nl ++
  "ACCEPT: q_accept" ++ nl ++
  "REJECT: q_reject" ++ nl ++
  "TAPE: 111111111111111111_".

(** The text [load_example] chooses for the selection [sel]. *)
Definition load_example_sample (sel : string) : string :=
  if bool_decide (sel = "Replace a->b") then sample_replace
  else if bool_decide (sel = "Move right until blank") then sample_move_right
  else sample_unary_increment.

(** The tables of the three example programs. *)
Definition table_replace : gmap (string * string) (string * string * string) :=
  <[("q0", "a") := ("b", "R", "q0")]>
  (<[("q0", "b") := ("b", "R", "q0")]>
  (<[("q0", "_") := ("_", "S", "q_accept")]> ∅)).

Definition table_move_right : gmap (string * string) (string * string * string) :=
  <[("q0", "a") := ("a", "R", "q0")]>
  (<[("q0", "b") := ("b", "R", "q0")]>
  (<[("q0", "_") := ("_", "S", "q_accept")]> ∅)).

Definition table_unary_increment : gmap (string * string) (string * string * string) :=
  <[("q0", "1") := ("1", "R", "q0")]>
  (<[("q0", "_") := ("1", "S", "q_accept")]> ∅).

(** The replacement of the keyword [blank] in the read and write
    positions. *)
Definition blank_keyword (s : string) : string :=
  if bool_decide (lower s = "blank") then "_" else s.

(** A table entry as the parser stores it: the move is upper case, the
    keyword [blank] does not remain in the read or write position, and no
    field has white space around it. *)
Definition entry_normal (k : string * string) (x : string * string * string) : Prop :=
  let '(st, sym) := k in
  let '(w, m, q) := x in
  upper m = m
  /\ lower sym <> "blank" /\ lower w <> "blank"
  /\ strip st = st /\ strip sym = sym
  /\ strip w = w /\ strip m = m /\ strip q = q.

Definition locals_normal (v : locals) : Prop :=
  map_Forall entry_normal (l_transitions v)
  /\ strip (l_start_state v) = l_start_state v
  /\ strip (l_accept_state v) = l_accept_state v
  /\ strip (l_reject_state v) = l_reject_state v
  /\ strip (l_tape v) = l_tape v
  /\ l_tape v <> "".

(** The lines the loop passes over: blank lines, comments, lines with
    neither an arrow nor a colon, and directives with an unknown key. *)
Definition ignored_line (raw : string) : bool :=
  let line := strip raw in
  bool_decide (line = "") || String.prefix "#" line
  || negb (contains "->" line)
     && (negb (contains ":" line)
         || match strip <$> split ":" 1 line with
            | [key; _] =>
              negb (bool_decide (upper key = "START"))
              && negb (bool_decide (upper key = "ACCEPT"))
              && negb (bool_decide (upper key = "REJECT"))
              && negb (bool_decide (upper key = "TAPE"))
            | _ => false
            end).

(** A field of a transition line written the plain way: not empty, without
    white space, comma or [>]. *)
Definition token_char (c : ascii) : bool :=
  negb (is_space c) && negb (Ascii.eqb c ",") && negb (Ascii.eqb c ">").

Fixpoint all_chars (p : ascii -> bool) (s : string) : bool :=
  match s with
  | EmptyString => true
  | String c s' => p c && all_chars p s'
  end.

Definition token (s : string) : Prop := s <> "" /\ all_chars token_char s = true.

(** The line [<state>,<symbol> -> <writeSymbol>,<move>,<nextState>]. *)
Definition transition_line (st sym w m q : string) : string :=
  st ++ "," ++ sym ++ " -> " ++ w ++ "," ++ m ++ "," ++ q.

(** A text of ASCII characters only.  On such texts the string operations
    modelled above are Python's; the properties of the parser below are
    stated for them. *)
Definition ascii_only (s : string) : bool :=
  all_chars (fun c => (nat_of_ascii c <? 128)%nat) s.

(** A plain field made of ASCII characters. *)
Definition ascii_token (s : string) : Prop := token s /\ ascii_only s = true.

(** Locals made of ASCII characters only. *)
Definition entry_ascii (k : string * string) (x : string * string * string) : Prop :=
  let '(st, sym) := k in
  let '(w, m, q) := x in
  ascii_only st = true /\ ascii_only sym = true
  /\ ascii_only w = true /\ ascii_only m = true /\ ascii_only q = true.

Definition locals_ascii (v : locals) : Prop :=
  map_Forall entry_ascii (l_transitions v)
  /\ ascii_only (l_start_state v) = true
  /\ ascii_only (l_accept_state v) = true
  /\ ascii_only (l_reject_state v) = true
  /\ ascii_only (l_tape v) = true.

(** The number of commas of [s]; [s.split(",")], with no limit on the cuts,
    has one field more. *)
Fixpoint count_commas (s : string) : nat :=
  match s with
  | EmptyString => O
  | String c s' => ((if Ascii.eqb c "," then 1 else 0) + count_commas s')%nat
  end.

Definition field_count (s : string) : nat := S (count_commas s).


(** A transition line with too few fields: fewer than two on the left of the
    arrow (no comma) or fewer than three on its right (at most one comma). *)
Definition too_few_fields (raw : string) : bool :=
  let line := strip raw in
  negb (bool_decide (line = "")) && negb (String.prefix "#" line)
  && contains "->" line
  && match split "->" 1 line with
     | [left'; right'] =>
       (field_count left' <? 2)%nat || (field_count right' <? 3)%nat
     | _ => false
     end.

(** The four keys the parser knows. *)
Definition directive_key (k : string) : Prop :=
  k = "START" \/ k = "ACCEPT" \/ k = "REJECT" \/ k = "TAPE".

(** What the directive with upper-cased key [k] and stripped value [val]
    assigns. *)
Definition assign_directive (k val : string) (v : locals) : locals :=
  if bool_decide (k = "START") then
    mk_locals (l_transitions v) val (l_accept_state v) (l_reject_state v) (l_tape v)
  else if bool_decide (k = "ACCEPT") then
    mk_locals (l_transitions v) (l_start_state v) val (l_reject_state v) (l_tape v)
  else if bool_decide (k = "REJECT") then
    mk_locals (l_transitions v) (l_start_state v) (l_accept_state v) val (l_tape v)
  else if bool_decide (k = "TAPE") then
    mk_locals (l_transitions v) (l_start_state v) (l_accept_state v)
              (l_reject_state v) (if bool_decide (val = "") then "_" else val)
  else v.

(** [l[start:stop]] for a list, with Python's treatment of negative and
    out-of-range bounds. *)
Definition py_slice {A : Type} (l : list A) (start stop : Z) : list A :=
  let n := Z.of_nat (length l) in
  let clamp i := if decide (i < 0) then Z.max (i + n) 0 else Z.min i n in
  let a := clamp start in
  let b := clamp stop in
  take (Z.to_nat (b - a)) (drop (Z.to_nat a) l).

(** One tape cell as [update_display] draws it: the rectangle
    (x, y, x + cell_w, y + cell_h), its fill colour, the symbol written in
    it, and whether the red pointer is drawn above it.  (The positions of
    the text and of the pointer, which are halves of pixels, are left
    out.) *)
Record drawn_cell : Type := mk_cell {
  rect : Z * Z * Z * Z;
  fill : string;
  text : string;
  pointer : bool
}.

(** [update_display]: the canvas is cleared and the cells of the window
    around the head are drawn; with no machine nothing is drawn. *)
Definition update_display (tm : option TuringMachine.t) : list drawn_cell :=
  match tm with
  | None => []
  | Some tm =>
    let tape := TuringMachine.tape tm in
    let head := TuringMachine.head tm in
    let window_size := 25 in
    let half := window_size / 2 in
    let cell_w := 45 in
    let cell_h := 50 in
    let y := 160 in
    let left' := Z.max 0 (head - half) in
    let right' := Z.min (Z.of_nat (length tape)) (head + half + 1) in
    let visible := py_slice tape left' right' in
    let start_x := (580 - Z.of_nat (length visible) * cell_w) / 2 in
    imap (fun k sym =>
            let i := left' + Z.of_nat k in
            let x := start_x + (i - left') * cell_w in
            mk_cell (x, y, x + cell_w, y + cell_h)
                    (if bool_decide (i = head) then "#bdf5bd" else "white")
                    sym
                    (bool_decide (i = head)))
         visible
  end.

(** The attributes of [UTMVisualizer] that its callbacks read and write:
    the contents of the description box, [self.tm], [self.running] and
    [self.after_id]; and, for Tk's timers, the identifiers of the callbacks
    scheduled with [after] that have neither fired nor been cancelled, with
    the next fresh identifier.  Every callback finishes its assignments
    before it opens a dialog, so a callback is one transition. *)
Module Window.

Record w : Type := mk {
  text : string;
  tm : option TuringMachine.t;
  running : bool;
  after_id : option nat;
  pending : list nat;
  next_id : nat
}.

(** [self.text.get("1.0", tk.END)]: the contents, with the newline Tk keeps
    at the end of a text widget. *)
Definition text_get (g : w) : string := text g ++ nl.

(** [parse_and_create_tm] and [reset_tm] on the window. *)
Definition parse_and_create_tm (g : w) : w :=
  mk (text g) (UTMVisualizer.parse_and_create_tm (text_get g) (tm g))
     (running g) (after_id g) (pending g) (next_id g).

Definition reset_tm (g : w) : w :=
  mk (text g) (UTMVisualizer.reset_tm (text_get g) (tm g))
     (running g) (after_id g) (pending g) (next_id g).

(** [load_example], with [sel] the selection of the combo box. *)
Definition load_example (sel : string) (g : w) : w :=
  parse_and_create_tm
    (mk (load_example_sample sel) (tm g) (running g) (after_id g)
        (pending g) (next_id g)).

(** [step_once].  ([step] raises nothing; were it to raise, the callback
    would end there.) *)
Definition step_once (g : w) : w :=
  match tm g with
  | None => g
  | Some m =>
    match TuringMachine.step m with
    | inl _ => g
    | inr (_, m') =>
      mk (text g) (Some m') (running g) (after_id g) (pending g) (next_id g)
    end
  end.

(** [_run_step]: one step, then either the end of the run or a new timer
    ([self.after(delay_ms, self._run_step)]; the delay is not modelled). *)
Definition _run_step (g : w) : w :=
  match tm g with
  | None => mk (text g) (tm g) false (after_id g) (pending g) (next_id g)
  | Some m =>
    if negb (running g) then
      mk (text g) (tm g) false (after_id g) (pending g) (next_id g)
    else
      match TuringMachine.step m with
      | inl _ => g
      | inr (progressed, m') =>
        if negb progressed then
          mk (text g) (Some m') false (after_id g) (pending g) (next_id g)
        else
          mk (text g) (Some m') (running g) (Some (next_id g))
             (pending g ++ [next_id g]) (S (next_id g))
      end
  end.

(** [run_auto]. *)
Definition run_auto (g : w) : w :=
  match tm g with
  | None => g
  | Some _ =>
    if running g then g
    else _run_step (mk (text g) (tm g) true (after_id g) (pending g) (next_id g))
  end.

(** [stop_run]; [after_cancel] removes the timer if it is still pending. *)
Definition stop_run (g : w) : w :=
  if negb (running g) then g
  else
    match after_id g with
    | None => mk (text g) (tm g) false None (pending g) (next_id g)
    | Some id =>
      mk (text g) (tm g) false None
         (List.filter (fun i => negb (Nat.eqb i id)) (pending g)) (next_id g)
    end.

(** The timer [id] fires: if it is pending, it is no longer, and its
    callback [_run_step] runs. *)
Definition timer_fires (id : nat) (g : w) : w :=
  if bool_decide (id ∈ pending g) then
    _run_step (mk (text g) (tm g) (running g) (after_id g)
                  (List.filter (fun i => negb (Nat.eqb i id)) (pending g))
                  (next_id g))
  else g.

(** What can happen to the window. *)
Inductive event : Type :=
  | Edit (s : string)
  | Load (sel : string)
  | ParseCreate
  | Reset
  | Step
  | Run
  | Stop
  | Timer (id : nat).

Definition handle (e : event) (g : w) : w :=
  match e with
  | Edit s => mk s (tm g) (running g) (after_id g) (pending g) (next_id g)
  | Load sel => load_example sel g
  | ParseCreate => parse_and_create_tm g
  | Reset => reset_tm g
  | Step => step_once g
  | Run => run_auto g
  | Stop => stop_run g
  | Timer id => timer_fires id g
  end.

Definition handle_all (es : list event) (g : w) : w :=
  foldl (fun g e => handle e g) g es.

(** The window when [UTMVisualizer.__init__] returns: no machine, not
    running, no timer, and then [self.load_example()] with the first entry
    of the combo box selected. *)
Definition init : w :=
  load_example "Replace a->b" (mk "" None false None [] 0).

(** The pending timer, if any, fires. *)
Definition next_timer (g : w) : w :=
  match pending g with
  | [] => g
  | id :: _ => timer_fires id g
  end.

End Window.

(** The machine of a window that has one: its blank is "_", its head is
    within one cell of its tape, and its tape is not empty. *)
Definition good_machine (m : TuringMachine.t) : Prop :=
  blank m = "_" /\ head_near_tape m /\ (1 <= length (tape m))%nat.

(** What holds of the window between callbacks. *)
Definition window_invariant (g : Window.w) : Prop :=
  (exists m, Window.tm g = Some m /\ good_machine m)
  /\ (if Window.running g
      then exists id, Window.pending g = [id] /\ Window.after_id g = Some id
      else Window.pending g = []).

(** * Properties of the machine *)

(** ** Subscripting inside the bounds *)

Lemma getitem_in_bounds {A : Type} (l : list A) (i : Z) :
  0 <= i < Z.of_nat (length l) ->
  exists x, l !! Z.to_nat i = Some x /\ getitem l i = inr x.
Proof.
  intros Hi.
  destruct (lookup_lt_is_Some_2 l (Z.to_nat i)) as [x Hx]; [lia|].
  exists x. split; [exact Hx|].
  unfold getitem, py_index. rewrite decide_True by exact Hi.
  rewrite Hx. reflexivity.
Qed.

Lemma setitem_in_bounds {A : Type} (l : list A) (i : Z) (x : A) :
  0 <= i < Z.of_nat (length l) ->
  setitem l i x = inr (<[Z.to_nat i := x]> l).
Proof.
  intros Hi. unfold setitem, py_index. rewrite decide_True by exact Hi.
  reflexivity.
Qed.

(** ** [ensure_head_in_bounds] *)

Lemma ensure_head_in_bounds_frame (tm : t) :
  blank (ensure_head_in_bounds tm) = blank tm
  /\ start_state (ensure_head_in_bounds tm) = start_state tm
  /\ state (ensure_head_in_bounds tm) = state tm
  /\ accept_state (ensure_head_in_bounds tm) = accept_state tm
  /\ reject_state (ensure_head_in_bounds tm) = reject_state tm
  /\ transitions (ensure_head_in_bounds tm) = transitions tm.
Proof.
  unfold ensure_head_in_bounds.
  destruct (decide (head tm < 0)); [cbn; tauto|].
  destruct (decide (head tm >= Z.of_nat (length (tape tm)))); cbn; tauto.
Qed.

Lemma ensure_head_in_bounds_left (tm : t) :
  head tm < 0 ->
  tape (ensure_head_in_bounds tm)
    = (replicate (Z.to_nat (Z.abs (head tm))) (blank tm) ++ tape tm)%list
  /\ head (ensure_head_in_bounds tm) = head tm + Z.abs (head tm).
Proof.
  intros Hneg. unfold ensure_head_in_bounds.
  rewrite decide_True by exact Hneg. cbn.
  split; [reflexivity|]. rewrite length_replicate. lia.
Qed.

Lemma ensure_head_in_bounds_right (tm : t) :
  head tm >= Z.of_nat (length (tape tm)) ->
  tape (ensure_head_in_bounds tm)
    = (tape tm
       ++ replicate (Z.to_nat (head tm - Z.of_nat (length (tape tm)) + 1)) (blank tm))%list
  /\ head (ensure_head_in_bounds tm) = head tm.
Proof.
  intros Hge. unfold ensure_head_in_bounds.
  rewrite decide_False by lia. rewrite decide_True by exact Hge.
  cbn. split; reflexivity.
Qed.

Lemma ensure_head_in_bounds_inside (tm : t) :
  0 <= head tm < Z.of_nat (length (tape tm)) ->
  ensure_head_in_bounds tm = tm.
Proof.
  intros [Hlo Hhi]. unfold ensure_head_in_bounds.
  rewrite decide_False by lia. rewrite decide_False by lia. reflexivity.
Qed.

Lemma ensure_head_in_bounds_bounds (tm : t) :
  0 <= head (ensure_head_in_bounds tm)
    < Z.of_nat (length (tape (ensure_head_in_bounds tm))).
Proof.
  destruct (decide (head tm < 0)) as [Hneg|Hnn].
  - destruct (ensure_head_in_bounds_left tm Hneg) as [-> ->].
    rewrite length_app, length_replicate. lia.
  - destruct (decide (head tm >= Z.of_nat (length (tape tm)))) as [Hge|Hlt].
    + destruct (ensure_head_in_bounds_right tm Hge) as [-> ->].
      rewrite length_app, length_replicate. lia.
    + rewrite ensure_head_in_bounds_inside by lia. lia.
Qed.

Lemma ensure_head_in_bounds_length (tm : t) :
  (length (tape tm) <= length (tape (ensure_head_in_bounds tm)))%nat.
Proof.
  destruct (decide (head tm < 0)) as [Hneg|Hnn].
  - destruct (ensure_head_in_bounds_left tm Hneg) as [-> _].
    rewrite length_app. lia.
  - destruct (decide (head tm >= Z.of_nat (length (tape tm)))) as [Hge|Hlt].
    + destruct (ensure_head_in_bounds_right tm Hge) as [-> _].
      rewrite length_app. lia.
    + rewrite ensure_head_in_bounds_inside by lia. lia.
Qed.

(** ** [step] *)

Lemma halted_test (tm : t) :
  bool_decide (state tm = accept_state tm)
  || bool_decide (state tm = reject_state tm) = true <-> halted tm.
Proof.
  unfold halted. rewrite orb_true_iff, !bool_decide_eq_true. reflexivity.
Qed.

Lemma step_when_halted (tm : t) : halted tm -> step tm = inr (false, tm).
Proof.
  intros H. apply halted_test in H. unfold step. rewrite H. reflexivity.
Qed.

(** The symbol [step] reads when the machine is not halted. *)
Lemma step_reads (tm : t) :
  exists symbol,
    tape (ensure_head_in_bounds tm) !! Z.to_nat (head (ensure_head_in_bounds tm))
      = Some symbol.
Proof.
  destruct (getitem_in_bounds _ _ (ensure_head_in_bounds_bounds tm)) as [x [Hx _]].
  exists x. exact Hx.
Qed.

(** What a call of [step] does to a machine that is not halted, given the
    symbol under the normalized head. *)
Lemma step_when_running (tm : t) (symbol : string) :
  ~ halted tm ->
  tape (ensure_head_in_bounds tm) !! Z.to_nat (head (ensure_head_in_bounds tm))
    = Some symbol ->
  step tm =
    let tm1 := ensure_head_in_bounds tm in
    match transitions tm !! (state tm, symbol) with
    | None => inr (false, set_state tm1 (reject_state tm))
    | Some (write, move, new_state) =>
      inr (true,
           mk (blank tm) (<[Z.to_nat (head tm1) := write]> (tape tm1))
              (moved move (head tm1)) (start_state tm) new_state
              (accept_state tm) (reject_state tm) (transitions tm))
    end.
Proof.
  intros Hrun Hsym.
  assert (Htest : bool_decide (state tm = accept_state tm)
                  || bool_decide (state tm = reject_state tm) = false).
  { destruct (bool_decide (state tm = accept_state tm)
              || bool_decide (state tm = reject_state tm)) eqn:E; [|reflexivity].
    apply halted_test in E. contradiction. }
  unfold step. rewrite Htest.
  pose proof (ensure_head_in_bounds_bounds tm) as Hb.
  destruct (ensure_head_in_bounds_frame tm) as (Hbl & Hst & Hs & Ha & Hr & Ht).
  destruct (getitem_in_bounds _ _ Hb) as [x [Hx Hget]].
  rewrite Hsym in Hx. injection Hx as <-.
  cbv zeta. rewrite Hget. cbn [mbind result_bind].
  rewrite Hs, Ht, Hr.
  destruct (transitions tm !! (state tm, symbol)) as [[[write move] new_state]|];
    [|reflexivity].
  rewrite (setitem_in_bounds _ _ write Hb). cbn [mbind result_bind].
  unfold moved, ret, mret, result_ret.
  destruct (bool_decide (upper move = "R"));
    [|destruct (bool_decide (upper move = "L"))];
    unfold set_state, set_head, set_tape; cbn [blank tape head start_state state
      accept_state reject_state transitions];
    rewrite ?Hbl, ?Hst, ?Ha, ?Hr, ?Ht; reflexivity.
Qed.

(** A call of [step] raises nothing. *)
Lemma step_total (tm : t) : exists b tm', step tm = inr (b, tm').
Proof.
  destruct (decide (halted tm)) as [Hh|Hr].
  - exists false, tm. apply step_when_halted, Hh.
  - destruct (step_reads tm) as [symbol Hsym].
    rewrite (step_when_running tm symbol Hr Hsym). cbv zeta.
    destruct (transitions tm !! (state tm, symbol)) as [[[w m] q]|]; eauto.
Qed.

Lemma steps_when_halted (tm : t) (n : nat) :
  halted tm -> steps n tm = inr (replicate n false, tm).
Proof.
  intros Hh. induction n as [|n IH]; [reflexivity|].
  cbn [steps]. rewrite (step_when_halted tm Hh). cbn. rewrite IH. reflexivity.
Qed.

Lemma chars_length (s : string) : length (chars s) = String.length s.
Proof. induction s as [|c s IH]; cbn; [reflexivity | now rewrite IH]. Qed.

Lemma chars_nonempty (s : string) : s <> "" -> (1 <= length (chars s))%nat.
Proof. destruct s; [congruence | cbn; lia]. Qed.

Lemma chars_concat (s : string) : String.concat "" (chars s) = s.
Proof.
  induction s as [|c s IH]; [reflexivity|].
  cbn [chars String.concat]. destruct (chars s) as [|x xs] eqn:E.
  - destruct s; [reflexivity | discriminate E].
  - cbn. f_equal. exact IH.
Qed.

(** * Properties of the parser *)

Lemma split1_found (sep s : string) (i : nat) :
  find sep s = Some i ->
  split sep 1 s = [string_take i s; string_drop (i + String.length sep) s].
Proof. intros H. cbn [split]. rewrite H. reflexivity. Qed.

Lemma contains_find (sub s : string) :
  contains sub s = true -> exists i, find sub s = Some i.
Proof.
  unfold contains. destruct (find sub s) as [i|]; [eauto | discriminate].
Qed.

Lemma unpack2_split1 (sep s : string) :
  (exists a b, unpack2 (strip <$> split sep 1 s) = inr (a, b)
               /\ length (split sep 1 s) = 2%nat)
  \/ (unpack2 (strip <$> split sep 1 s) = inl (ValueError_not_enough 2 1)
      /\ length (split sep 1 s) = 1%nat).
Proof.
  cbn [split]. destruct (find sep s) as [i|]; [left | right].
  - do 2 eexists. split; reflexivity.
  - split; reflexivity.
Qed.

Lemma unpack3_split2 (sep s : string) :
  (exists a b c, unpack3 (strip <$> split sep 2 s) = inr (a, b, c)
                 /\ length (split sep 2 s) = 3%nat)
  \/ (exists got, unpack3 (strip <$> split sep 2 s) = inl (ValueError_not_enough 3 got)
                  /\ length (split sep 2 s) = got /\ (got < 3)%nat).
Proof.
  cbn [split]. destruct (find sep s) as [i|]; [|right].
  - destruct (find sep (string_drop (i + String.length sep) s)) as [j|]; [left | right].
    + do 3 eexists. split; reflexivity.
    + exists 2%nat. repeat split. lia.
  - exists 1%nat. repeat split. lia.
Qed.

Lemma unpack_error_2_1 : unpack_error (ValueError_not_enough 2 1).
Proof. exists 2%nat, 1%nat. repeat split; [lia | auto]. Qed.

Lemma unpack_error_3 (got : nat) :
  (got < 3)%nat -> unpack_error (ValueError_not_enough 3 got).
Proof. intros H. exists 3%nat, got. repeat split; [lia | auto]. Qed.

(** The only exceptions an iteration raises are the unpacking errors for
    too few fields. *)
Lemma parse_line_error (raw : string) (v : locals) (e : exn) :
  parse_line raw v = inl e -> unpack_error e.
Proof.
  unfold parse_line. cbv zeta.
  destruct (bool_decide (strip raw = "") || String.prefix "#" (strip raw));
    [discriminate|].
  destruct (contains "->" (strip raw)) eqn:Harrow.
  - destruct (contains_find _ _ Harrow) as [i Hi].
    rewrite (split1_found _ _ _ Hi).
    cbn [unpack2 mbind result_bind ret mret result_ret].
    destruct (unpack2_split1 "," (string_take i (strip raw)))
      as [(a & b & -> & _) | [-> _]].
    2: { intros [= <-]. apply unpack_error_2_1. }
    cbn [mbind result_bind].
    destruct (unpack3_split2 "," (string_drop (i + String.length "->") (strip raw)))
      as [(a' & b' & c' & -> & _) | (got & -> & _ & Hlt)].
    + discriminate.
    + intros [= <-]. apply unpack_error_3, Hlt.
  - destruct (contains ":" (strip raw)) eqn:Hcolon; [|discriminate].
    destruct (contains_find _ _ Hcolon) as [i Hi].
    rewrite (split1_found _ _ _ Hi).
    cbn [fmap list_fmap unpack2 mbind result_bind ret mret result_ret].
    repeat case_bool_decide; discriminate.
Qed.

(** A malformed transition line makes its iteration raise, whatever the
    locals are. *)
Lemma parse_line_malformed (raw : string) (v : locals) :
  malformed_transition_line raw = true ->
  exists e, parse_line raw v = inl e.
Proof.
  unfold malformed_transition_line, parse_line. cbv zeta.
  rewrite !andb_true_iff, !negb_true_iff.
  intros [[[Hne Hcomment] Harrow] Hcount].
  rewrite Hne, Hcomment, Harrow. cbn [orb].
  destruct (contains_find _ _ Harrow) as [i Hi].
  rewrite (split1_found _ _ _ Hi) in Hcount |- *.
  cbn [unpack2 mbind result_bind ret mret result_ret].
  destruct (unpack2_split1 "," (string_take i (strip raw)))
    as [(a & b & -> & Hl) | [-> _]]; [|eauto].
  cbn [mbind result_bind].
  destruct (unpack3_split2 "," (string_drop (i + String.length "->") (strip raw)))
    as [(a' & b' & c' & -> & Hr) | (got & -> & _ & Hlt)]; [|eauto].
  rewrite Hl, Hr in Hcount. discriminate Hcount.
Qed.

Lemma parse_lines_malformed (lines : list string) (raw : string) (v : locals) :
  raw ∈ lines ->
  malformed_transition_line raw = true ->
  exists e, parse_lines lines v = inl e /\ unpack_error e.
Proof.
  intros Hin Hbad. revert v.
  induction Hin as [raw rest | raw first rest Hin IH]; intros v; cbn [parse_lines].
  - destruct (parse_line_malformed raw v Hbad) as [e He].
    exists e. rewrite He. split; [reflexivity|].
    apply (parse_line_error raw v), He.
  - destruct (parse_line first v) as [e|v'] eqn:Hfirst.
    + exists e. split; [reflexivity|]. apply (parse_line_error first v), Hfirst.
    + cbn [mbind result_bind]. apply IH; exact Hbad.
Qed.

(** ** Fields and the code's splits *)

Lemma find_comma_count (s : string) :
  match find "," s with
  | None => count_commas s = 0%nat
  | Some i => count_commas s = S (count_commas (string_drop (i + 1) s))
  end.
Proof.
  induction s as [|c s IH]; [reflexivity|].
  cbn [find String.prefix count_commas].
  destruct (ascii_dec "," c) as [<-|Hne].
  - assert (Hp : String.prefix "" s = true) by (destruct s; reflexivity).
    rewrite Hp. reflexivity.
  - assert (Hc : Ascii.eqb c "," = false) by (apply Ascii.eqb_neq; congruence).
    rewrite Hc. destruct (find "," s) as [i|]; cbn; [|exact IH].
    rewrite IH. reflexivity.
Qed.

(** The code's split with at most [k] cuts has as many parts as there are
    fields, up to [k + 1]. *)
Lemma split_comma_length (k : nat) (s : string) :
  length (split "," k s) = Nat.min (S k) (field_count s).
Proof.
  unfold field_count. revert s. induction k as [|k IH]; intros s; [reflexivity|].
  cbn [split]. pose proof (find_comma_count s) as Hc.
  destruct (find "," s) as [i|].
  - cbn [length String.length]. rewrite IH, Hc. lia.
  - rewrite Hc. reflexivity.
Qed.

(** A line makes the loop raise exactly when it has too few fields. *)
Lemma malformed_is_too_few (raw : string) :
  malformed_transition_line raw = too_few_fields raw.
Proof.
  unfold malformed_transition_line, too_few_fields. cbv zeta.
  destruct (contains "->" (strip raw)) eqn:Harrow;
    [|rewrite !andb_false_r; reflexivity].
  destruct (contains_find _ _ Harrow) as [i Hi].
  rewrite (split1_found _ _ _ Hi). f_equal.
  rewrite !split_comma_length. unfold field_count.
  destruct (count_commas (string_take i (strip raw))) as [|[|n]];
    destruct (count_commas (string_drop (i + String.length "->") (strip raw)))
      as [|[|[|m]]]; reflexivity.
Qed.

(** * The claims *)

(** C1, as stated, fails on scenario 3: after one call of [step] the tape
    still has length 1 and the head is -1, so no result of the call has a
    tape of length 2 with head 0. *)
Lemma scenario3_step_does_not_extend :
  ~ exists b tm',
      step scenario3 = inr (b, tm')
      /\ length (tape tm') = 2%nat /\ head tm' = 0 /\ state tm' = "q1".
Proof.
  intros (b & tm' & Hstep & Hlen & _).
  vm_compute in Hstep. injection Hstep as _ <-. discriminate Hlen.
Qed.

(** C1, amended: on scenario 3 one call of [step] returns true and leaves
    tape "x" (length 1), head -1 and state q1; the blank is added by the next
    normalization, which gives tape "_x" and head 0, as the second call of
    [step] shows.  In general a step that moves left from head 0 keeps the
    tape's length and sets head to -1, and the next [ensure_head_in_bounds]
    prepends exactly one blank, so that what was at index i is at index i+1
    and head is 0. *)
Theorem step_left_from_zero_extends_lazily :
  (exists tm',
     step scenario3 = inr (true, tm')
     /\ tape tm' = ["x"] /\ head tm' = -1 /\ state tm' = "q1"
     /\ tape (ensure_head_in_bounds tm') = ["_"; "x"]
     /\ head (ensure_head_in_bounds tm') = 0
     /\ exists tm'',
          steps 2 scenario3 = inr ([true; false], tm'')
          /\ tape tm'' = ["_"; "x"] /\ head tm'' = 0)
  /\ (forall tm symbol write move new_state,
        ~ halted tm ->
        head tm = 0 ->
        tape tm !! 0%nat = Some symbol ->
        transitions tm !! (state tm, symbol) = Some (write, move, new_state) ->
        upper move = "L" ->
        exists tm',
          step tm = inr (true, tm')
          /\ tape tm' = <[0%nat := write]> (tape tm)
          /\ length (tape tm') = length (tape tm)
          /\ head tm' = -1
          /\ state tm' = new_state
          /\ tape (ensure_head_in_bounds tm') = blank tm :: tape tm'
          /\ (forall i, tape (ensure_head_in_bounds tm') !! S i = tape tm' !! i)
          /\ head (ensure_head_in_bounds tm') = 0).
Proof.
  split.
  - eexists. split; [vm_compute; reflexivity|].
    cbn. repeat (split; [reflexivity|]).
    eexists. split; [vm_compute; reflexivity|]. cbn. auto.
  - intros tm symbol write move new_state Hrun Hhead Hsym Hsome HL.
    assert (Hin : 0 <= head tm < Z.of_nat (length (tape tm))).
    { apply lookup_lt_Some in Hsym. lia. }
    pose proof (ensure_head_in_bounds_inside tm Hin) as Hens.
    assert (Hsym' : tape (ensure_head_in_bounds tm)
                      !! Z.to_nat (head (ensure_head_in_bounds tm)) = Some symbol).
    { rewrite Hens, Hhead. exact Hsym. }
    assert (Hmoved : moved move 0 = -1).
    { unfold moved. rewrite HL. reflexivity. }
    eexists. split.
    + rewrite (step_when_running tm symbol Hrun Hsym'), Hsome. cbv zeta.
      rewrite Hens, Hhead, Hmoved. reflexivity.
    + cbn [tape head state].
      split; [reflexivity|]. split; [apply length_insert|].
      split; [reflexivity|]. split; [reflexivity|].
      unfold ensure_head_in_bounds. cbn. auto.
Qed.

Lemma step_left_from_zero_extends_lazily_witness :
  exists tm',
    step scenario3 = inr (true, tm')
    /\ tape tm' = <[0%nat := "x"]> (tape scenario3)
    /\ length (tape tm') = length (tape scenario3)
    /\ head tm' = -1
    /\ state tm' = "q1"
    /\ tape (ensure_head_in_bounds tm') = blank scenario3 :: tape tm'
    /\ (forall i, tape (ensure_head_in_bounds tm') !! S i = tape tm' !! i)
    /\ head (ensure_head_in_bounds tm') = 0.
Proof.
  apply (proj2 step_left_from_zero_extends_lazily scenario3 "x" "x" "L" "q1").
  - intros [H|H]; discriminate H.
  - reflexivity.
  - reflexivity.
  - vm_compute. reflexivity.
  - reflexivity.
Defined.




(** C3: when the current state is the accept state or the reject state,
    [step] returns false and leaves the machine (tape, head, state and all
    the rest) as it was; any number of further calls all return false and
    leave the machine as it was. *)
Theorem step_halted_is_noop (tm : t) :
  halted tm ->
  step tm = inr (false, tm)
  /\ forall n, steps n tm = inr (replicate n false, tm).
Proof.
  intros Hh. split; [apply step_when_halted, Hh|].
  intros n. apply steps_when_halted, Hh.
Qed.

Lemma step_halted_is_noop_witness :
  step (set_state scenario1 "q_reject") = inr (false, set_state scenario1 "q_reject")
  /\ forall n,
       steps n (set_state scenario1 "q_reject")
       = inr (replicate n false, set_state scenario1 "q_reject").
Proof.
  apply (step_halted_is_noop (set_state scenario1 "q_reject")).
  right. reflexivity.
Defined.

(** C4: for a machine that is not halted, when the pair (state, symbol under
    the head after normalization) has no entry in the table, [step] returns
    false, sets the state to the reject state, and leaves tape and head as
    normalization left them; the symbol under the head is still the one that
    was read. *)
Theorem step_missing_transition_rejects (tm : t) (symbol : string) :
  ~ halted tm ->
  tape (ensure_head_in_bounds tm) !! Z.to_nat (head (ensure_head_in_bounds tm))
    = Some symbol ->
  transitions tm !! (state tm, symbol) = None ->
  exists tm',
    step tm = inr (false, tm')
    /\ state tm' = reject_state tm
    /\ tape tm' = tape (ensure_head_in_bounds tm)
    /\ head tm' = head (ensure_head_in_bounds tm)
    /\ tape tm' !! Z.to_nat (head tm') = Some symbol
    /\ transitions tm' = transitions tm
    /\ reject_state tm' = reject_state tm
    /\ accept_state tm' = accept_state tm.
Proof.
  intros Hrun Hsym Hnone.
  destruct (ensure_head_in_bounds_frame tm) as (Hbl & Hst & Hs & Ha & Hr & Ht).
  eexists. split.
  - rewrite (step_when_running tm symbol Hrun Hsym), Hnone. reflexivity.
  - cbn. rewrite Ht, Hr, Ha. auto 10.
Qed.

Lemma step_missing_transition_rejects_witness :
  exists tm',
    step (set_head scenario2 1) = inr (false, tm')
    /\ state tm' = "q_reject"
    /\ tape tm' = tape (ensure_head_in_bounds (set_head scenario2 1))
    /\ head tm' = head (ensure_head_in_bounds (set_head scenario2 1))
    /\ tape tm' !! Z.to_nat (head tm') = Some "0"
    /\ transitions tm' = transitions (set_head scenario2 1)
    /\ reject_state tm' = "q_reject"
    /\ accept_state tm' = "q_accept".
Proof.
  apply (step_missing_transition_rejects (set_head scenario2 1) "0").
  - intros [H|H]; discriminate H.
  - reflexivity.
  - vm_compute. reflexivity.
Defined.

(** C5: for a machine that is not halted, when the table maps the pair
    (state, symbol under the normalized head) to (write, move, new_state),
    [step] returns true, writes [write] at the head position, sets the state
    to [new_state], and moves the head by +1 when [move.upper()] is "R", by
    -1 when it is "L", and not at all for any other [move]. *)
Theorem step_applies_transition (tm : t) (symbol write move new_state : string) :
  ~ halted tm ->
  tape (ensure_head_in_bounds tm) !! Z.to_nat (head (ensure_head_in_bounds tm))
    = Some symbol ->
  transitions tm !! (state tm, symbol) = Some (write, move, new_state) ->
  exists tm',
    step tm = inr (true, tm')
    /\ tape tm'
       = <[Z.to_nat (head (ensure_head_in_bounds tm)) := write]>
           (tape (ensure_head_in_bounds tm))
    /\ tape tm' !! Z.to_nat (head (ensure_head_in_bounds tm)) = Some write
    /\ state tm' = new_state
    /\ (upper move = "R" -> head tm' = head (ensure_head_in_bounds tm) + 1)
    /\ (upper move = "L" -> head tm' = head (ensure_head_in_bounds tm) - 1)
    /\ (upper move <> "R" -> upper move <> "L" ->
        head tm' = head (ensure_head_in_bounds tm)).
Proof.
  intros Hrun Hsym Hsome.
  pose proof (ensure_head_in_bounds_bounds tm) as Hb.
  eexists. split.
  - rewrite (step_when_running tm symbol Hrun Hsym), Hsome. reflexivity.
  - cbn [tape head state]. split; [reflexivity|]. split.
    { apply list_lookup_insert_eq. lia. }
    split; [reflexivity|]. unfold moved.
    repeat split.
    + intros ->. reflexivity.
    + intros HL. rewrite HL. reflexivity.
    + intros HR HL. rewrite !bool_decide_eq_false_2 by assumption. reflexivity.
Qed.

Lemma step_applies_transition_witness :
  exists tm',
    step scenario1 = inr (true, tm')
    /\ tape tm'
       = <[Z.to_nat (head (ensure_head_in_bounds scenario1)) := "b"]>
           (tape (ensure_head_in_bounds scenario1))
    /\ tape tm' !! Z.to_nat (head (ensure_head_in_bounds scenario1)) = Some "b"
    /\ state tm' = "q0"
    /\ (upper "R" = "R" -> head tm' = head (ensure_head_in_bounds scenario1) + 1)
    /\ (upper "R" = "L" -> head tm' = head (ensure_head_in_bounds scenario1) - 1)
    /\ (upper "R" <> "R" -> upper "R" <> "L" ->
        head tm' = head (ensure_head_in_bounds scenario1)).
Proof.
  apply (step_applies_transition scenario1 "a" "b" "R" "q0").
  - intros [H|H]; discriminate H.
  - reflexivity.
  - vm_compute. reflexivity.
Defined.

(** C6: scenario 1.  From tape "aabb_", head 0 and state q0, five calls of
    [step] all return true and leave the tape "bbbb_" and the state
    q_accept. *)
Theorem scenario1_five_steps :
  exists tm',
    steps 5 scenario1 = inr ([true; true; true; true; true], tm')
    /\ tape tm' = ["b"; "b"; "b"; "b"; "_"]
    /\ state tm' = "q_accept"
    /\ head tm' = 4.
Proof.
  eexists. split; [vm_compute; reflexivity|].
  cbn. auto.
Qed.

(** C7: [ensure_head_in_bounds] is idempotent; one call prepends |head|
    blanks and shifts the head by as much when head < 0, appends
    head - length + 1 blanks when head >= length, and in every case leaves
    0 <= head < length.  (The tape need not be non-empty for this.) *)
Theorem ensure_head_in_bounds_idempotent (tm : t) :
  let tm1 := ensure_head_in_bounds tm in
  ensure_head_in_bounds tm1 = tm1
  /\ (head tm < 0 ->
      tape tm1 = (replicate (Z.to_nat (Z.abs (head tm))) (blank tm) ++ tape tm)%list
      /\ length (tape tm1) = (Z.to_nat (Z.abs (head tm)) + length (tape tm))%nat
      /\ head tm1 = head tm + Z.abs (head tm))
  /\ (head tm >= Z.of_nat (length (tape tm)) ->
      tape tm1
      = (tape tm
         ++ replicate (Z.to_nat (head tm - Z.of_nat (length (tape tm)) + 1))
              (blank tm))%list
      /\ Z.of_nat (length (tape tm1))
         = Z.of_nat (length (tape tm)) + (head tm - Z.of_nat (length (tape tm)) + 1)
      /\ head tm1 = head tm)
  /\ (0 <= head tm < Z.of_nat (length (tape tm)) -> tm1 = tm)
  /\ 0 <= head tm1 < Z.of_nat (length (tape tm1)).
Proof.
  cbv zeta. split; [|split; [|split; [|split]]].
  - apply ensure_head_in_bounds_inside, ensure_head_in_bounds_bounds.
  - intros Hneg. destruct (ensure_head_in_bounds_left tm Hneg) as [Ht Hh].
    rewrite Ht, Hh, length_app, length_replicate. auto.
  - intros Hge. destruct (ensure_head_in_bounds_right tm Hge) as [Ht Hh].
    rewrite Ht, Hh, length_app, length_replicate.
    repeat split. lia.
  - apply ensure_head_in_bounds_inside.
  - apply ensure_head_in_bounds_bounds.
Qed.

(** C8: [reset] replaces the tape by the characters of the given text, or by
    one blank when the text is empty, sets head to 0 and state to the start
    state, and leaves the table, the start, accept and reject labels and the
    blank symbol as they were. *)
Theorem reset_replaces_tape_only (tm : t) (tape_str : string) :
  let tm' := reset tm tape_str in
  (tape_str = "" -> tape tm' = [blank tm])
  /\ (tape_str <> "" ->
      tape tm' = chars tape_str
      /\ String.concat "" (tape tm') = tape_str
      /\ length (tape tm') = String.length tape_str)
  /\ head tm' = 0
  /\ state tm' = start_state tm
  /\ transitions tm' = transitions tm
  /\ start_state tm' = start_state tm
  /\ accept_state tm' = accept_state tm
  /\ reject_state tm' = reject_state tm
  /\ blank tm' = blank tm.
Proof.
  cbv zeta. unfold reset. cbn.
  split; [intros ->; reflexivity|]. split; [|auto 10].
  intros Hne. rewrite decide_False by exact Hne.
  rewrite chars_concat, chars_length. auto.
Qed.

(** C9: [step] always returns; when it returns false the machine's state is
    then the accept state or the reject state; and a transition into the
    accept or the reject state is applied in full, write and move, with
    return value true. *)
Theorem step_false_means_halted :
  (forall tm, exists b tm', step tm = inr (b, tm'))
  /\ (forall tm tm', step tm = inr (false, tm') -> halted tm')
  /\ (forall tm symbol write move new_state,
        ~ halted tm ->
        tape (ensure_head_in_bounds tm)
          !! Z.to_nat (head (ensure_head_in_bounds tm)) = Some symbol ->
        transitions tm !! (state tm, symbol) = Some (write, move, new_state) ->
        new_state = accept_state tm \/ new_state = reject_state tm ->
        exists tm',
          step tm = inr (true, tm')
          /\ halted tm'
          /\ state tm' = new_state
          /\ tape tm'
             = <[Z.to_nat (head (ensure_head_in_bounds tm)) := write]>
                 (tape (ensure_head_in_bounds tm))
          /\ head tm' = moved move (head (ensure_head_in_bounds tm))).
Proof.
  split; [exact step_total|]. split.
  - intros tm tm' Hstep.
    destruct (decide (halted tm)) as [Hh|Hrun].
    + rewrite (step_when_halted tm Hh) in Hstep. congruence.
    + destruct (step_reads tm) as [symbol Hsym].
      destruct (ensure_head_in_bounds_frame tm) as (_ & _ & _ & _ & Hr & _).
      rewrite (step_when_running tm symbol Hrun Hsym) in Hstep. cbv zeta in Hstep.
      destruct (transitions tm !! (state tm, symbol)) as [[[w m] q]|];
        [discriminate Hstep|].
      injection Hstep as <-. right. cbn. symmetry. exact Hr.
  - intros tm symbol write move new_state Hrun Hsym Hsome Hfinal.
    eexists. split.
    + rewrite (step_when_running tm symbol Hrun Hsym), Hsome. reflexivity.
    + unfold halted. cbn. auto.
Qed.

Lemma step_false_means_halted_witness :
  exists tm',
    step (set_head scenario1 4) = inr (true, tm')
    /\ halted tm'
    /\ state tm' = "q_accept"
    /\ tape tm'
       = <[Z.to_nat (head (ensure_head_in_bounds (set_head scenario1 4))) := "_"]>
           (tape (ensure_head_in_bounds (set_head scenario1 4)))
    /\ head tm' = moved "S" (head (ensure_head_in_bounds (set_head scenario1 4))).
Proof.
  apply (proj2 (proj2 step_false_means_halted) (set_head scenario1 4) "_" "_" "S" "q_accept").
  - intros [H|H]; discriminate H.
  - reflexivity.
  - vm_compute. reflexivity.
  - left. reflexivity.
Defined.

(** C10: the tape is never empty.  [__init__] and [reset] produce a tape of
    length at least 1; [ensure_head_in_bounds] and [step] never shorten the
    tape; so a tape of length at least 1 stays so under every operation. *)
Theorem tape_never_empty :
  (forall tape_str transitions start accept reject blank,
     (1 <= length (tape (__init__ tape_str transitions start accept reject blank)))%nat)
  /\ (forall tm tape_str, (1 <= length (tape (reset tm tape_str)))%nat)
  /\ (forall tm, (length (tape tm) <= length (tape (ensure_head_in_bounds tm)))%nat)
  /\ (forall tm, exists b tm',
        step tm = inr (b, tm') /\ (length (tape tm) <= length (tape tm'))%nat)
  /\ (forall tm n, exists bs tm',
        steps n tm = inr (bs, tm') /\ (length (tape tm) <= length (tape tm'))%nat).
Proof.
  assert (Hstep : forall tm, exists b tm',
            step tm = inr (b, tm') /\ (length (tape tm) <= length (tape tm'))%nat).
  { intros tm. destruct (decide (halted tm)) as [Hh|Hrun].
    - exists false, tm. split; [apply step_when_halted, Hh | lia].
    - destruct (step_reads tm) as [symbol Hsym].
      pose proof (ensure_head_in_bounds_length tm) as Hlen.
      rewrite (step_when_running tm symbol Hrun Hsym). cbv zeta.
      destruct (transitions tm !! (state tm, symbol)) as [[[w m] q]|];
        do 2 eexists; (split; [reflexivity|]); cbn; rewrite ?length_insert; exact Hlen. }
  split; [|split; [|split; [|split]]].
  - intros tape_str transitions start accept reject blank. cbn.
    destruct (decide (tape_str = "")) as [_|Hne]; [cbn; lia|].
    apply chars_nonempty, Hne.
  - intros tm tape_str. cbn.
    destruct (decide (tape_str = "")) as [_|Hne]; [cbn; lia|].
    apply chars_nonempty, Hne.
  - exact ensure_head_in_bounds_length.
  - exact Hstep.
  - intros tm n. revert tm. induction n as [|n IH]; intros tm.
    + exists [], tm. split; [reflexivity | lia].
    + destruct (Hstep tm) as (b & tm1 & Hs & Hl1).
      destruct (IH tm1) as (bs & tm2 & Hss & Hl2).
      exists (b :: bs), tm2. split; [|lia].
      cbn [steps]. rewrite Hs. cbn. rewrite Hss. reflexivity.
Qed.

(** * Further properties of the machine *)

Lemma same_program_refl (tm : t) : same_program tm tm.
Proof. unfold same_program. auto. Qed.

Lemma same_program_trans (tm1 tm2 tm3 : t) :
  same_program tm1 tm2 -> same_program tm2 tm3 -> same_program tm1 tm3.
Proof.
  unfold same_program. intros (-> & -> & -> & -> & ->) (-> & -> & -> & -> & ->).
  auto.
Qed.

Lemma moved_range (move : string) (h : Z) : h - 1 <= moved move h <= h + 1.
Proof.
  unfold moved. destruct (bool_decide (upper move = "R"));
    [|destruct (bool_decide (upper move = "L"))]; lia.
Qed.

(** One call of [step], with everything the later proofs need about it. *)
Lemma step_outcome (tm : t) :
  exists b tm',
    step tm = inr (b, tm')
    /\ same_program tm tm'
    /\ (b = false -> halted tm')
    /\ (halted tm -> b = false /\ tm' = tm)
    /\ (~ halted tm ->
        length (tape tm') = length (tape (ensure_head_in_bounds tm))
        /\ head (ensure_head_in_bounds tm) - 1 <= head tm'
           <= head (ensure_head_in_bounds tm) + 1).
Proof.
  destruct (decide (halted tm)) as [Hh|Hrun].
  - exists false, tm. rewrite (step_when_halted tm Hh).
    split; [reflexivity|]. split; [apply same_program_refl|].
    split; [auto|]. split; [auto | contradiction].
  - destruct (step_reads tm) as [symbol Hsym].
    destruct (ensure_head_in_bounds_frame tm) as (Hbl & Hst & Hs & Ha & Hr & Ht).
    rewrite (step_when_running tm symbol Hrun Hsym). cbv zeta.
    destruct (transitions tm !! (state tm, symbol)) as [[[w m] q]|].
    + do 2 eexists. split; [reflexivity|].
      split; [unfold same_program; cbn; auto|].
      split; [discriminate|]. split; [contradiction|]. intros _.
      cbn [tape head]. rewrite length_insert. split; [reflexivity|].
      apply moved_range.
    + do 2 eexists. split; [reflexivity|].
      split; [unfold same_program; cbn; auto|].
      split; [intros _; right; cbn; auto|]. split; [contradiction|]. intros _.
      cbn. split; [reflexivity | lia].
Qed.

Lemma steps_S (n : nat) (tm : t) (b : bool) (tm1 : t) (bs : list bool) (tm2 : t) :
  step tm = inr (b, tm1) ->
  steps n tm1 = inr (bs, tm2) ->
  steps (S n) tm = inr (b :: bs, tm2).
Proof. intros H1 H2. cbn [steps]. rewrite H1. cbn. rewrite H2. reflexivity. Qed.

(** [n + m] calls are [n] calls followed by [m] calls. *)
Lemma steps_app (n m : nat) (tm tm1 tm2 : t) (bs1 bs2 : list bool) :
  steps n tm = inr (bs1, tm1) ->
  steps m tm1 = inr (bs2, tm2) ->
  steps (n + m) tm = inr ((bs1 ++ bs2)%list, tm2).
Proof.
  revert tm bs1. induction n as [|n IH]; intros tm bs1 H1 H2.
  - injection H1 as <- <-. exact H2.
  - cbn [steps] in H1. destruct (step_outcome tm) as (b & tm' & Hs & _).
    rewrite Hs in H1. cbn in H1.
    destruct (steps n tm') as [e|[bs' tm'']] eqn:Hn; [discriminate H1|].
    cbn in H1. injection H1 as <- <-.
    cbn [Nat.add]. apply (steps_S _ _ _ _ _ _ Hs). apply (IH _ _ Hn H2).
Qed.

Lemma step_head_near_tape (tm : t) (b : bool) (tm' : t) :
  head_near_tape tm ->
  step tm = inr (b, tm') ->
  head_near_tape tm'
  /\ (length (tape tm) <= length (tape tm') <= length (tape tm) + 1)%nat.
Proof.
  unfold head_near_tape. intros Hnear Hstep.
  destruct (step_outcome tm) as (b0 & tm0 & Hs & _ & _ & Hhalt & Hrun).
  rewrite Hs in Hstep. injection Hstep as -> ->.
  destruct (decide (halted tm)) as [Hh|Hnh].
  - destruct (Hhalt Hh) as [_ ->]. lia.
  - destruct (Hrun Hnh) as [Hlen Hhead].
    pose proof (ensure_head_in_bounds_bounds tm) as Hb.
    assert (Hadd : (length (tape tm) <= length (tape (ensure_head_in_bounds tm))
                    <= length (tape tm) + 1)%nat).
    { destruct (decide (head tm < 0)) as [Hneg|Hnn].
      - destruct (ensure_head_in_bounds_left tm Hneg) as [Ht _].
        rewrite Ht, length_app, length_replicate.
        replace (head tm) with (-1) by lia. cbn. lia.
      - destruct (decide (head tm >= Z.of_nat (length (tape tm)))) as [Hge|Hlt].
        + destruct (ensure_head_in_bounds_right tm Hge) as [Ht _].
          rewrite Ht, length_app, length_replicate.
          replace (head tm) with (Z.of_nat (length (tape tm))) by lia.
          replace (Z.of_nat (length (tape tm)) - Z.of_nat (length (tape tm)) + 1)
            with 1 by lia. cbn. lia.
        + rewrite ensure_head_in_bounds_inside by lia. lia. }
    rewrite Hlen. split; [lia | exact Hadd].
Qed.

Lemma steps_outcome (n : nat) (tm : t) :
  exists bs tm',
    steps n tm = inr (bs, tm') /\ length bs = n /\ same_program tm tm'.
Proof.
  revert tm. induction n as [|n IH]; intros tm.
  - exists [], tm. repeat split; apply same_program_refl.
  - destruct (step_outcome tm) as (b & tm1 & Hs & Hp1 & _).
    destruct (IH tm1) as (bs & tm2 & Hss & Hlen & Hp2).
    exists (b :: bs), tm2. split; [apply (steps_S _ _ _ _ _ _ Hs Hss)|].
    split; [cbn; lia | apply (same_program_trans _ _ _ Hp1 Hp2)].
Qed.

(** X1: any number of calls of [step] returns one boolean per call and
    never changes the transition table, the blank symbol or the start,
    accept and reject labels. *)
Theorem steps_keep_program (tm : t) (n : nat) :
  exists bs tm',
    steps n tm = inr (bs, tm')
    /\ length bs = n
    /\ transitions tm' = transitions tm
    /\ blank tm' = blank tm
    /\ start_state tm' = start_state tm
    /\ accept_state tm' = accept_state tm
    /\ reject_state tm' = reject_state tm.
Proof.
  destruct (steps_outcome n tm) as (bs & tm' & Hs & Hlen & Hp).
  exists bs, tm'. split; [exact Hs|]. split; [exact Hlen | exact Hp].
Qed.

(** X2: a machine made by [__init__] or [reset] has its head within one cell
    of the tape (-1 <= head <= len), every call of [step] keeps it so, and
    [n] calls lengthen the tape by at most [n] cells. *)
Theorem head_stays_near_tape :
  (forall tape_str transitions start accept reject blank,
     head_near_tape (__init__ tape_str transitions start accept reject blank))
  /\ (forall tm tape_str, head_near_tape (reset tm tape_str))
  /\ (forall tm n,
        head_near_tape tm ->
        exists bs tm',
          steps n tm = inr (bs, tm')
          /\ head_near_tape tm'
          /\ (length (tape tm) <= length (tape tm') <= length (tape tm) + n)%nat).
Proof.
  split; [|split].
  - intros. unfold head_near_tape. cbn. lia.
  - intros. unfold head_near_tape. cbn. lia.
  - intros tm n. revert tm. induction n as [|n IH]; intros tm Hnear.
    + exists [], tm. split; [reflexivity|]. split; [exact Hnear | lia].
    + destruct (step_outcome tm) as (b & tm1 & Hs & _).
      destruct (step_head_near_tape tm b tm1 Hnear Hs) as [Hnear1 Hlen1].
      destruct (IH tm1 Hnear1) as (bs & tm2 & Hss & Hnear2 & Hlen2).
      exists (b :: bs), tm2. split; [apply (steps_S _ _ _ _ _ _ Hs Hss)|].
      split; [exact Hnear2 | lia].
Qed.

Lemma head_stays_near_tape_witness :
  exists bs tm',
    steps 2 scenario3 = inr (bs, tm')
    /\ head_near_tape tm'
    /\ (length (tape scenario3) <= length (tape tm') <= length (tape scenario3) + 2)%nat.
Proof.
  apply (proj2 (proj2 head_stays_near_tape) scenario3 2%nat).
  unfold head_near_tape. cbn. lia.
Defined.

(** X3: in any sequence of calls of [step] the return values are some
    number of [True]s followed only by [False]s, and once a call has
    returned [False] the machine is halted. *)
Theorem steps_return_true_then_false (tm : t) (n : nat) :
  exists k tm',
    (k <= n)%nat
    /\ steps n tm = inr ((replicate k true ++ replicate (n - k) false)%list, tm')
    /\ ((k < n)%nat -> halted tm').
Proof.
  revert tm. induction n as [|n IH]; intros tm.
  - exists 0%nat, tm. split; [lia|]. split; [reflexivity | lia].
  - destruct (step_outcome tm) as (b & tm1 & Hs & _ & Hfalse & _).
    destruct b.
    + destruct (IH tm1) as (k & tm2 & Hk & Hss & Hh).
      exists (S k), tm2. split; [lia|]. split.
      * replace (S n - S k)%nat with (n - k)%nat by lia.
        apply (steps_S _ _ _ _ _ _ Hs Hss).
      * intros Hlt. apply Hh. lia.
    + exists 0%nat, tm1. split; [lia|]. split; [|intros _; auto].
      rewrite Nat.sub_0_r.
      apply (steps_S _ _ _ _ _ _ Hs). apply steps_when_halted. auto.
Qed.

(** X4: [reset] forgets the run: after any number of calls of [step],
    [reset] with a tape text gives the same machine as [reset] with that
    text before the calls. *)
Theorem reset_forgets_run (tm : t) (n : nat) (tape_str : string) :
  exists bs tm',
    steps n tm = inr (bs, tm') /\ reset tm' tape_str = reset tm tape_str.
Proof.
  destruct (steps_outcome n tm) as (bs & tm' & Hs & _ & Ht & Hb & Hst & Ha & Hr).
  exists bs, tm'. split; [exact Hs|].
  unfold reset, set_state, set_head, set_tape. cbn.
  rewrite Ht, Hb, Hst, Ha, Hr. reflexivity.
Qed.

(** X5: a cell outside the tape reads as blank: when the machine is not
    halted and the head is left of the tape or at or beyond its right end,
    the symbol [step] reads is the blank symbol, so the rule applied is the
    one for (state, blank), and with no such rule the machine rejects. *)
Theorem step_off_tape_reads_blank (tm : t) :
  ~ halted tm ->
  head tm < 0 \/ head tm >= Z.of_nat (length (tape tm)) ->
  tape (ensure_head_in_bounds tm) !! Z.to_nat (head (ensure_head_in_bounds tm))
    = Some (blank tm)
  /\ (transitions tm !! (state tm, blank tm) = None ->
      exists tm', step tm = inr (false, tm') /\ state tm' = reject_state tm)
  /\ (forall write move new_state,
        transitions tm !! (state tm, blank tm) = Some (write, move, new_state) ->
        exists tm', step tm = inr (true, tm') /\ state tm' = new_state).
Proof.
  intros Hrun Hout.
  assert (Hread : tape (ensure_head_in_bounds tm)
                    !! Z.to_nat (head (ensure_head_in_bounds tm)) = Some (blank tm)).
  { destruct Hout as [Hneg|Hge].
    - destruct (ensure_head_in_bounds_left tm Hneg) as [-> ->].
      replace (head tm + Z.abs (head tm)) with 0 by lia.
      rewrite lookup_app_l by (rewrite length_replicate; lia).
      apply lookup_replicate_2. lia.
    - destruct (ensure_head_in_bounds_right tm Hge) as [-> ->].
      rewrite lookup_app_r by lia.
      apply lookup_replicate_2. lia. }
  split; [exact Hread|]. split.
  - intros Hnone. eexists. split.
    + rewrite (step_when_running tm _ Hrun Hread), Hnone. reflexivity.
    + reflexivity.
  - intros write move new_state Hsome. eexists. split.
    + rewrite (step_when_running tm _ Hrun Hread), Hsome. reflexivity.
    + reflexivity.
Qed.

Lemma step_off_tape_reads_blank_witness :
  tape (ensure_head_in_bounds (set_head scenario2 2))
    !! Z.to_nat (head (ensure_head_in_bounds (set_head scenario2 2)))
    = Some (blank (set_head scenario2 2))
  /\ (transitions (set_head scenario2 2)
        !! (state (set_head scenario2 2), blank (set_head scenario2 2)) = None ->
      exists tm',
        step (set_head scenario2 2) = inr (false, tm')
        /\ state tm' = reject_state (set_head scenario2 2))
  /\ (forall write move new_state,
        transitions (set_head scenario2 2)
          !! (state (set_head scenario2 2), blank (set_head scenario2 2))
          = Some (write, move, new_state) ->
        exists tm',
          step (set_head scenario2 2) = inr (true, tm') /\ state tm' = new_state).
Proof.
  apply (step_off_tape_reads_blank (set_head scenario2 2)).
  - intros [H|H]; discriminate H.
  - right. vm_compute. discriminate.
Defined.

(** ** The example programs of [load_example] *)

Lemma set_tape_head_id (tm : t) : set_head (set_tape tm (tape tm)) (head tm) = tm.
Proof. destruct tm. reflexivity. Qed.

Lemma not_halted_same_state (tm tm' : t) :
  ~ halted tm -> state tm' = state tm -> accept_state tm' = accept_state tm ->
  reject_state tm' = reject_state tm -> ~ halted tm'.
Proof. unfold halted. intros H -> -> ->. exact H. Qed.

(** A run of cells whose symbols all have a rule that moves right and stays
    in the current state is rewritten cell by cell, one call per cell. *)
Lemma steps_sweep_right (f : string -> string) (l : list string) :
  forall (tm : t) (pre rest : list string),
    ~ halted tm ->
    tape tm = (pre ++ l ++ rest)%list ->
    head tm = Z.of_nat (length pre) ->
    (forall s, s ∈ l ->
       exists m, transitions tm !! (state tm, s) = Some (f s, m, state tm)
                 /\ upper m = "R") ->
    steps (length l) tm
    = inr (replicate (length l) true,
           set_head (set_tape tm (pre ++ (f <$> l) ++ rest)%list)
                    (Z.of_nat (length pre + length l))).
Proof.
  induction l as [|s l IH]; intros tm pre rest Hrun Htape Hhead Hrules.
  - cbn [length steps replicate fmap list_fmap app]. rewrite Nat.add_0_r, <- Hhead.
    cbn in Htape. rewrite <- Htape, set_tape_head_id. reflexivity.
  - assert (Hin : 0 <= head tm < Z.of_nat (length (tape tm))).
    { rewrite Htape, Hhead, !length_app. cbn [length]. lia. }
    pose proof (ensure_head_in_bounds_inside tm Hin) as Hens.
    assert (Hsym : tape (ensure_head_in_bounds tm)
                     !! Z.to_nat (head (ensure_head_in_bounds tm)) = Some s).
    { rewrite Hens, Htape, Hhead, Nat2Z.id. apply list_lookup_middle. reflexivity. }
    destruct (Hrules s) as (m & Hm & HR); [apply list_elem_of_here|].
    pose proof (step_when_running tm s Hrun Hsym) as Hstep.
    rewrite Hm in Hstep. cbv zeta in Hstep. rewrite Hens in Hstep.
    assert (Hmv : moved m (head tm) = head tm + 1).
    { unfold moved. rewrite HR. reflexivity. }
    rewrite Hmv in Hstep.
    assert (Hins : <[Z.to_nat (head tm) := f s]> (tape tm)
                   = ((pre ++ [f s]) ++ l ++ rest)%list).
    { rewrite Htape, Hhead, Nat2Z.id.
      rewrite insert_app_r_alt by lia. rewrite Nat.sub_diag.
      cbn. rewrite <- app_assoc. reflexivity. }
    rewrite Hins in Hstep.
    cbn [length]. apply (steps_S _ _ _ _ _ _ Hstep).
    rewrite (IH _ (pre ++ [f s])%list rest).
    + unfold set_head, set_tape. cbn.
      rewrite length_app. cbn [length].
      rewrite <- !app_assoc. cbn [app].
      do 3 f_equal. lia.
    + apply (not_halted_same_state tm); [exact Hrun | reflexivity..].
    + reflexivity.
    + cbn. rewrite length_app. cbn [length]. lia.
    + cbn. intros s' Hs'. apply Hrules. apply list_elem_of_further, Hs'.
Qed.

(** After the sweep, the rule for the blank symbol: the cell read is the
    blank that follows the run on the tape, or the one [step] appends when
    the run ends the tape. *)
Lemma steps_sweep_to_blank (f : string -> string) (l rest : list string)
    (tm : t) (w m q : string) :
  ~ halted tm ->
  tape tm = (l ++ rest)%list ->
  head tm = 0 ->
  rest = [] \/ (exists r, rest = blank tm :: r) ->
  (forall s, s ∈ l ->
     exists m', transitions tm !! (state tm, s) = Some (f s, m', state tm)
                /\ upper m' = "R") ->
  transitions tm !! (state tm, blank tm) = Some (w, m, q) ->
  upper m <> "R" -> upper m <> "L" ->
  exists tm',
    steps (length l + 1) tm = inr (replicate (length l + 1) true, tm')
    /\ tape tm' = ((f <$> l) ++ w :: tail rest)%list
    /\ head tm' = Z.of_nat (length l)
    /\ state tm' = q
    /\ same_program tm tm'.
Proof.
  intros Hrun Htape Hhead Hrest Hrules Hblank HnR HnL.
  pose (tm1 := set_head (set_tape tm ((f <$> l) ++ rest)%list)
                        (Z.of_nat (length l))).
  assert (Hsweep : steps (length l) tm = inr (replicate (length l) true, tm1)).
  { apply (steps_sweep_right f l tm [] rest Hrun Htape Hhead Hrules). }
  assert (Hrun1 : ~ halted tm1).
  { apply (not_halted_same_state tm); [exact Hrun | reflexivity..]. }
  assert (Hens : tape (ensure_head_in_bounds tm1)
                 = ((f <$> l) ++ blank tm :: tail rest)%list
                 /\ head (ensure_head_in_bounds tm1) = Z.of_nat (length l)).
  { destruct Hrest as [-> | [r ->]].
    - assert (Hge : head tm1 >= Z.of_nat (length (tape tm1))).
      { cbn. rewrite length_app, length_fmap. cbn. lia. }
      destruct (ensure_head_in_bounds_right tm1 Hge) as [-> ->].
      cbn [tm1 set_head set_tape tape head blank]. split; [|reflexivity].
      rewrite app_nil_r, length_fmap.
      replace (Z.of_nat (length l) - Z.of_nat (length l) + 1) with 1 by lia.
      reflexivity.
    - rewrite ensure_head_in_bounds_inside.
      + split; reflexivity.
      + cbn. rewrite length_app, length_fmap. cbn [length]. lia. }
  destruct Hens as [Hens_tape Hens_head].
  assert (Hsym : tape (ensure_head_in_bounds tm1)
                   !! Z.to_nat (head (ensure_head_in_bounds tm1)) = Some (blank tm)).
  { rewrite Hens_tape, Hens_head, Nat2Z.id.
    apply list_lookup_middle. rewrite length_fmap. reflexivity. }
  pose proof (step_when_running tm1 (blank tm) Hrun1 Hsym) as Hstep.
  change (transitions tm1) with (transitions tm) in Hstep.
  change (state tm1) with (state tm) in Hstep.
  rewrite Hblank in Hstep. cbv zeta in Hstep.
  rewrite Hens_tape, Hens_head, Nat2Z.id in Hstep.
  assert (Hmv : moved m (Z.of_nat (length l)) = Z.of_nat (length l)).
  { unfold moved. rewrite !bool_decide_eq_false_2 by assumption. reflexivity. }
  rewrite Hmv in Hstep.
  rewrite insert_app_r_alt in Hstep by (rewrite length_fmap; lia).
  rewrite length_fmap, Nat.sub_diag in Hstep. cbn [insert list_insert] in Hstep.
  eexists. split.
  - rewrite replicate_add.
    apply (steps_app _ _ _ _ _ _ _ Hsweep).
    apply (steps_S 0 _ _ _ [] _ Hstep). reflexivity.
  - cbn. unfold same_program. cbn. auto 10.
Qed.

Lemma chars_app (s1 s2 : string) : chars (s1 ++ s2) = (chars s1 ++ chars s2)%list.
Proof.
  induction s1 as [|c s1 IH]; [reflexivity|].
  change (String c s1 ++ s2) with (String c (s1 ++ s2)).
  cbn [chars app]. rewrite IH. reflexivity.
Qed.

Lemma append_empty (s1 s2 : string) : s1 ++ s2 = "" -> s1 = "" /\ s2 = "".
Proof. destruct s1; cbn; [auto | discriminate]. Qed.

Lemma fmap_const_replicate (x : string) (l : list string) :
  (fun _ => x) <$> l = replicate (length l) x.
Proof. induction l as [|y l IH]; cbn; [reflexivity | now rewrite IH]. Qed.

(** The sweep on a machine fresh from [__init__] with tape text [w ++ r]:
    [w] is the run and [r] is empty or begins with the blank. *)
Lemma init_sweep_to_blank (f : string -> string)
    (tr : gmap (string * string) (string * string * string))
    (w r start accept reject blank wsym m q : string) :
  start <> accept -> start <> reject ->
  chars r = [] \/ (exists r', chars r = blank :: r') ->
  (forall s, s ∈ chars w ->
     exists m', tr !! (start, s) = Some (f s, m', start) /\ upper m' = "R") ->
  tr !! (start, blank) = Some (wsym, m, q) ->
  upper m <> "R" -> upper m <> "L" ->
  exists tm',
    steps (String.length w + 1) (__init__ (w ++ r) (Some tr) start accept reject blank)
    = inr (replicate (String.length w + 1) true, tm')
    /\ tape tm' = ((f <$> chars w) ++ wsym :: tail (chars r))%list
    /\ head tm' = Z.of_nat (String.length w)
    /\ state tm' = q.
Proof.
  intros Hna Hnr Hr Hrules Hblank HnR HnL.
  set (tm := __init__ (w ++ r) (Some tr) start accept reject blank).
  assert (Hrun : ~ halted tm) by (intros [H|H]; cbn in H; congruence).
  rewrite <- (chars_length w).
  destruct (decide (w ++ r = "")) as [Hempty|Hne].
  - destruct (append_empty _ _ Hempty) as [-> ->].
    assert (Hnone : forall s, s ∈ @nil string ->
              exists m', transitions tm !! (state tm, s) = Some (f s, m', state tm)
                         /\ upper m' = "R").
    { intros s Hin. inversion Hin. }
    destruct (steps_sweep_to_blank f [] [blank] tm wsym m q Hrun eq_refl eq_refl
                (or_intror (ex_intro _ [] eq_refl)) Hnone Hblank HnR HnL)
      as (tm' & Hs & Ht & Hh & Hq & _).
    exists tm'. auto.
  - assert (Htape : tape tm = (chars w ++ chars r)%list).
    { cbn. rewrite decide_False by exact Hne. apply chars_app. }
    destruct (steps_sweep_to_blank f (chars w) (chars r) tm wsym m q Hrun Htape
                eq_refl Hr Hrules Hblank HnR HnL)
      as (tm' & Hs & Ht & Hh & Hq & _).
    exists tm'. auto.
Qed.

Lemma chars_blank_prefix (r : string) :
  r = "" \/ (exists r', r = String "_"%char r') ->
  chars r = [] \/ (exists r', chars r = "_" :: r').
Proof. intros [-> | [r' ->]]; [left | right; eexists]; reflexivity. Qed.

(** X6: the "Replace a->b" example.  Its text parses to the table below,
    and for every tape text made of a word over a and b, alone or followed
    by a blank and anything else, the machine takes one step per letter plus
    one, all returning true, and stops in q_accept with every letter of the
    word replaced by b (a blank is added when the word ends the tape). *)
Theorem example_replace_correct :
  parse_tm_description sample_replace
  = inr (table_replace, "q0", "q_accept", "q_reject", "aaaaaaaaaaaaaaaaaaaaaaaaabbbb_")
  /\ forall w r : string,
       (forall c, c ∈ chars w -> c = "a" \/ c = "b") ->
       r = "" \/ (exists r', r = String "_"%char r') ->
       exists tm',
         steps (String.length w + 1)
               (__init__ (w ++ r) (Some table_replace) "q0" "q_accept" "q_reject" "_")
         = inr (replicate (String.length w + 1) true, tm')
         /\ tape tm' = (replicate (String.length w) "b" ++ "_" :: tail (chars r))%list
         /\ head tm' = Z.of_nat (String.length w)
         /\ state tm' = "q_accept".
Proof.
  split; [vm_compute; reflexivity|].
  intros w r Hw Hr.
  destruct (init_sweep_to_blank (fun _ => "b") table_replace w r
              "q0" "q_accept" "q_reject" "_" "_" "S" "q_accept")
    as (tm' & Hs & Ht & Hh & Hq); try discriminate.
  - apply chars_blank_prefix, Hr.
  - intros s Hin. exists "R". destruct (Hw s Hin) as [-> | ->]; split; reflexivity.
  - reflexivity.
  - exists tm'. rewrite Ht, fmap_const_replicate, chars_length. auto.
Qed.

Lemma example_replace_correct_witness :
  exists tm',
    steps (String.length "aabb" + 1)
          (__init__ ("aabb" ++ "_") (Some table_replace) "q0" "q_accept" "q_reject" "_")
    = inr (replicate (String.length "aabb" + 1) true, tm')
    /\ tape tm' = (replicate (String.length "aabb") "b" ++ "_" :: tail (chars "_"))%list
    /\ head tm' = Z.of_nat (String.length "aabb")
    /\ state tm' = "q_accept".
Proof.
  apply (proj2 example_replace_correct "aabb" "_").
  - intros c Hc. apply list_elem_of_In in Hc. cbn in Hc.
    intuition (subst; auto).
  - right. exists "". reflexivity.
Defined.

(** X7: the "Move right until blank" example.  Its text parses to the table
    below, and on a word over a and b (alone or followed by a blank) the
    machine takes one step per letter plus one and stops in q_accept with the
    word unchanged. *)
Theorem example_move_right_correct :
  parse_tm_description sample_move_right
  = inr (table_move_right, "q0", "q_accept", "q_reject",
         "aaaaaaaaaaaaaaaaaaaaabbbbbbbb_")
  /\ forall w r : string,
       (forall c, c ∈ chars w -> c = "a" \/ c = "b") ->
       r = "" \/ (exists r', r = String "_"%char r') ->
       exists tm',
         steps (String.length w + 1)
               (__init__ (w ++ r) (Some table_move_right) "q0" "q_accept" "q_reject" "_")
         = inr (replicate (String.length w + 1) true, tm')
         /\ tape tm' = (chars w ++ "_" :: tail (chars r))%list
         /\ head tm' = Z.of_nat (String.length w)
         /\ state tm' = "q_accept".
Proof.
  split; [vm_compute; reflexivity|].
  intros w r Hw Hr.
  destruct (init_sweep_to_blank (fun s => s) table_move_right w r
              "q0" "q_accept" "q_reject" "_" "_" "S" "q_accept")
    as (tm' & Hs & Ht & Hh & Hq); try discriminate.
  - apply chars_blank_prefix, Hr.
  - intros s Hin. exists "R". destruct (Hw s Hin) as [-> | ->]; split; reflexivity.
  - reflexivity.
  - exists tm'. rewrite Ht, list_fmap_id. auto.
Qed.

Lemma example_move_right_correct_witness :
  exists tm',
    steps (String.length "ab" + 1)
          (__init__ ("ab" ++ "") (Some table_move_right) "q0" "q_accept" "q_reject" "_")
    = inr (replicate (String.length "ab" + 1) true, tm')
    /\ tape tm' = (chars "ab" ++ "_" :: tail (chars ""))%list
    /\ head tm' = Z.of_nat (String.length "ab")
    /\ state tm' = "q_accept".
Proof.
  apply (proj2 example_move_right_correct "ab" "").
  - intros c Hc. apply list_elem_of_In in Hc. cbn in Hc.
    intuition (subst; auto).
  - left. reflexivity.
Defined.

(** X8: the "Unary increment" example.  Its text parses to the table below,
    and on a word of n ones (alone or followed by a blank) the machine takes
    n + 1 steps and stops in q_accept with n + 1 ones: the blank after the
    word, or the cell added at the end of the tape, becomes a one. *)
Theorem example_unary_increment_correct :
  parse_tm_description sample_unary_increment
  = inr (table_unary_increment, "q0", "q_accept", "q_reject", "111111111111111111_")
  /\ forall w r : string,
       (forall c, c ∈ chars w -> c = "1") ->
       r = "" \/ (exists r', r = String "_"%char r') ->
       exists tm',
         steps (String.length w + 1)
               (__init__ (w ++ r) (Some table_unary_increment)
                         "q0" "q_accept" "q_reject" "_")
         = inr (replicate (String.length w + 1) true, tm')
         /\ tape tm' = (replicate (String.length w + 1) "1" ++ tail (chars r))%list
         /\ head tm' = Z.of_nat (String.length w)
         /\ state tm' = "q_accept".
Proof.
  split; [vm_compute; reflexivity|].
  intros w r Hw Hr.
  destruct (init_sweep_to_blank (fun _ => "1") table_unary_increment w r
              "q0" "q_accept" "q_reject" "_" "1" "S" "q_accept")
    as (tm' & Hs & Ht & Hh & Hq); try discriminate.
  - apply chars_blank_prefix, Hr.
  - intros s Hin. exists "R". rewrite (Hw s Hin). split; reflexivity.
  - reflexivity.
  - exists tm'. split; [exact Hs|].
    rewrite Ht, fmap_const_replicate, chars_length.
    rewrite replicate_add, <- app_assoc. auto.
Qed.

Lemma example_unary_increment_correct_witness :
  exists tm',
    steps (String.length "111" + 1)
          (__init__ ("111" ++ "_") (Some table_unary_increment)
                    "q0" "q_accept" "q_reject" "_")
    = inr (replicate (String.length "111" + 1) true, tm')
    /\ tape tm' = (replicate (String.length "111" + 1) "1" ++ tail (chars "_"))%list
    /\ head tm' = Z.of_nat (String.length "111")
    /\ state tm' = "q_accept".
Proof.
  apply (proj2 example_unary_increment_correct "111" "_").
  - intros c Hc. apply list_elem_of_In in Hc. cbn in Hc.
    intuition (subst; auto).
  - right. exists "". reflexivity.
Defined.

(** * Further properties of the parser *)

(** ** Stripping and case *)

Lemma upper_char_idempotent (c : ascii) : upper_char (upper_char c) = upper_char c.
Proof. destruct c as [[] [] [] [] [] [] [] []]; reflexivity. Qed.

Lemma is_space_upper_char (c : ascii) : is_space (upper_char c) = is_space c.
Proof. destruct c as [[] [] [] [] [] [] [] []]; reflexivity. Qed.

Lemma upper_idempotent (s : string) : upper (upper s) = upper s.
Proof.
  unfold upper. induction s as [|c s IH]; [reflexivity|].
  cbn [string_map]. rewrite upper_char_idempotent, IH. reflexivity.
Qed.

Lemma lstrip_starts (s : string) :
  lstrip s = "" \/ exists c s', lstrip s = String c s' /\ is_space c = false.
Proof.
  induction s as [|c s IH]; [left; reflexivity|].
  cbn [lstrip]. destruct (is_space c) eqn:E; [exact IH|].
  right. exists c, s. auto.
Qed.

Lemma rstrip_idempotent (s : string) : rstrip (rstrip s) = rstrip s.
Proof.
  induction s as [|c s IH]; [reflexivity|].
  cbn [rstrip]. destruct (rstrip s) as [|d r] eqn:E.
  - destruct (is_space c) eqn:Ec; [reflexivity|].
    cbn [rstrip]. rewrite Ec. reflexivity.
  - cbn [rstrip]. cbn [rstrip] in IH. rewrite IH. reflexivity.
Qed.

Lemma rstrip_keeps_first (c : ascii) (s : string) :
  is_space c = false -> exists s', rstrip (String c s) = String c s'.
Proof.
  intros Hc. cbn [rstrip]. destruct (rstrip s) as [|d r].
  - rewrite Hc. eauto.
  - eauto.
Qed.

Lemma lstrip_not_space (c : ascii) (s : string) :
  is_space c = false -> lstrip (String c s) = String c s.
Proof. intros Hc. cbn [lstrip]. rewrite Hc. reflexivity. Qed.

(** [strip] removes all there is to remove. *)
Lemma strip_idempotent (s : string) : strip (strip s) = strip s.
Proof.
  unfold strip. destruct (lstrip_starts s) as [-> | (c & s' & -> & Hc)].
  - reflexivity.
  - destruct (rstrip_keeps_first c s' Hc) as [r Hr].
    rewrite Hr, (lstrip_not_space c r Hc), <- Hr. apply rstrip_idempotent.
Qed.

Lemma lstrip_upper (s : string) : lstrip (upper s) = upper (lstrip s).
Proof.
  unfold upper. induction s as [|c s IH]; [reflexivity|].
  cbn [string_map lstrip]. rewrite is_space_upper_char.
  destruct (is_space c); [exact IH | reflexivity].
Qed.

Lemma rstrip_upper (s : string) : rstrip (upper s) = upper (rstrip s).
Proof.
  unfold upper. induction s as [|c s IH]; [reflexivity|].
  cbn [string_map rstrip]. rewrite IH, is_space_upper_char.
  destruct (rstrip s) as [|d r]; cbn [string_map].
  - destruct (is_space c); reflexivity.
  - reflexivity.
Qed.

Lemma strip_upper (s : string) : strip (upper s) = upper (strip s).
Proof. unfold strip. rewrite lstrip_upper, rstrip_upper. reflexivity. Qed.

(** ** ASCII texts *)

Lemma all_chars_app (p : ascii -> bool) (s t : string) :
  all_chars p (s ++ t) = all_chars p s && all_chars p t.
Proof.
  induction s as [|c s IH]; [reflexivity|].
  change (String c s ++ t) with (String c (s ++ t)).
  cbn [all_chars]. rewrite IH, andb_assoc. reflexivity.
Qed.

Lemma all_chars_rev_app (p : ascii -> bool) (s1 s2 : string) :
  all_chars p (String.rev_app s1 s2) = all_chars p s1 && all_chars p s2.
Proof.
  revert s2. induction s1 as [|c s1 IH]; intros s2; [reflexivity|].
  cbn [String.rev_app all_chars]. rewrite IH. cbn [all_chars].
  destruct (p c), (all_chars p s1), (all_chars p s2); reflexivity.
Qed.

Lemma ascii_rev (s : string) : ascii_only (String.rev s) = ascii_only s.
Proof.
  unfold ascii_only, String.rev. rewrite all_chars_rev_app. cbn [all_chars].
  apply andb_true_r.
Qed.

Lemma ascii_cons (c : ascii) (s : string) :
  ascii_only (String c s) = true ->
  (nat_of_ascii c <? 128)%nat = true /\ ascii_only s = true.
Proof. unfold ascii_only. cbn [all_chars]. apply andb_true_iff. Qed.

Lemma ascii_lstrip (s : string) : ascii_only s = true -> ascii_only (lstrip s) = true.
Proof.
  induction s as [|c s IH]; [reflexivity|]. intros Hs.
  cbn [lstrip]. destruct (is_space c); [|exact Hs].
  apply IH. apply (ascii_cons c s Hs).
Qed.

Lemma ascii_rstrip (s : string) : ascii_only s = true -> ascii_only (rstrip s) = true.
Proof.
  induction s as [|c s IH]; [reflexivity|]. intros Hs.
  destruct (ascii_cons c s Hs) as [Hc Hs']. specialize (IH Hs').
  cbn [rstrip]. destruct (rstrip s) as [|d r].
  - destruct (is_space c); [reflexivity|].
    unfold ascii_only. cbn [all_chars]. rewrite Hc. reflexivity.
  - unfold ascii_only in *. cbn [all_chars] in *. rewrite Hc. exact IH.
Qed.

Lemma ascii_strip (s : string) : ascii_only s = true -> ascii_only (strip s) = true.
Proof. intros Hs. unfold strip. apply ascii_rstrip, ascii_lstrip, Hs. Qed.

Lemma ascii_take (n : nat) (s : string) :
  ascii_only s = true -> ascii_only (string_take n s) = true.
Proof.
  revert s. induction n as [|n IH]; intros s Hs; [destruct s; reflexivity|].
  destruct s as [|c s]; [reflexivity|].
  destruct (ascii_cons c s Hs) as [Hc Hs'].
  cbn [string_take]. unfold ascii_only. cbn [all_chars]. rewrite Hc.
  apply (IH s Hs').
Qed.

Lemma ascii_drop (n : nat) (s : string) :
  ascii_only s = true -> ascii_only (string_drop n s) = true.
Proof.
  revert s. induction n as [|n IH]; intros s Hs; [destruct s; exact Hs|].
  destruct s as [|c s]; [reflexivity|].
  cbn [string_drop]. apply IH. apply (ascii_cons c s Hs).
Qed.

Lemma ascii_split (sep : string) (k : nat) (s : string) :
  ascii_only s = true ->
  forall x, x ∈ split sep k s -> ascii_only x = true.
Proof.
  revert s. induction k as [|k IH]; intros s Hs x Hx; cbn [split] in Hx.
  - apply list_elem_of_singleton in Hx. subst x. exact Hs.
  - destruct (find sep s) as [i|].
    + apply elem_of_cons in Hx as [-> | Hx]; [apply ascii_take, Hs|].
      apply (IH _ (ascii_drop _ s Hs) x Hx).
    + apply list_elem_of_singleton in Hx. subst x. exact Hs.
Qed.

Lemma ascii_upper_char (c : ascii) :
  (nat_of_ascii c <? 128)%nat = true -> (nat_of_ascii (upper_char c) <? 128)%nat = true.
Proof. destruct c as [[] [] [] [] [] [] [] []]; intros H; try reflexivity; exact H. Qed.

Lemma ascii_upper (s : string) : ascii_only s = true -> ascii_only (upper s) = true.
Proof.
  unfold upper. induction s as [|c s IH]; [reflexivity|]. intros Hs.
  destruct (ascii_cons c s Hs) as [Hc Hs'].
  cbn [string_map]. unfold ascii_only. cbn [all_chars].
  rewrite (ascii_upper_char c Hc). apply (IH Hs').
Qed.

Lemma ascii_splitlines_from (cur : string) (after_cr : bool) (s : string) :
  ascii_only cur = true -> ascii_only s = true ->
  forall x, x ∈ splitlines_from cur after_cr s -> ascii_only x = true.
Proof.
  revert cur after_cr. induction s as [|c s IH]; intros cur after_cr Hcur Hs x Hx.
  - cbn [splitlines_from] in Hx. destruct cur as [|d cur'].
    + inversion Hx.
    + apply list_elem_of_singleton in Hx. subst x. rewrite ascii_rev. exact Hcur.
  - destruct (ascii_cons c s Hs) as [Hc Hs'].
    cbn [splitlines_from] in Hx.
    destruct (after_cr && bool_decide (c = "010"%char)).
    + apply (IH EmptyString false eq_refl Hs' x Hx).
    + destruct (is_linebreak c).
      * apply elem_of_cons in Hx as [-> | Hx].
        -- rewrite ascii_rev. exact Hcur.
        -- apply (IH EmptyString _ eq_refl Hs' x Hx).
      * apply (IH (String c cur) false); [|exact Hs' | exact Hx].
        unfold ascii_only. cbn [all_chars]. rewrite Hc. exact Hcur.
Qed.

(** The lines of an ASCII text are ASCII. *)
Lemma ascii_splitlines (text : string) :
  ascii_only text = true ->
  forall raw, raw ∈ splitlines text -> ascii_only raw = true.
Proof. intros Ht. apply (ascii_splitlines_from EmptyString false text eq_refl Ht). Qed.

(** ** What one line does to the locals *)

Lemma unpack2_fmap_inr {A B : Type} (f : A -> B) (l : list A) (a b : B) :
  unpack2 (f <$> l) = inr (a, b) ->
  exists a0 b0, l = [a0; b0] /\ a = f a0 /\ b = f b0.
Proof.
  destruct l as [|a0 [|b0 [|c0 l]]]; cbn; try discriminate;
    try (destruct (decide _); discriminate).
  intros [= <- <-]. eauto.
Qed.

Lemma unpack3_fmap_inr {A B : Type} (f : A -> B) (l : list A) (a b c : B) :
  unpack3 (f <$> l) = inr (a, b, c) ->
  exists a0 b0 c0, l = [a0; b0; c0] /\ a = f a0 /\ b = f b0 /\ c = f c0.
Proof.
  destruct l as [|a0 [|b0 [|c0 [|d0 l]]]]; cbn; try discriminate;
    try (destruct (decide _); discriminate).
  intros [= <- <- <-]. eauto 10.
Qed.

(** A line that does not raise leaves the locals alone, or adds one entry to
    the table, or sets one of the four directives. *)
Lemma parse_line_inr (raw : string) (v v' : locals) :
  parse_line raw v = inr v' ->
  v' = v
  \/ (exists st sym w m q,
        v' = mk_locals
               (<[(strip st, blank_keyword (strip sym))
                  := (blank_keyword (strip w), upper (strip m), strip q)]>
                  (l_transitions v))
               (l_start_state v) (l_accept_state v) (l_reject_state v) (l_tape v))
  \/ (exists val,
        v' = mk_locals (l_transitions v) (strip val) (l_accept_state v)
                       (l_reject_state v) (l_tape v)
        \/ v' = mk_locals (l_transitions v) (l_start_state v) (strip val)
                          (l_reject_state v) (l_tape v)
        \/ v' = mk_locals (l_transitions v) (l_start_state v) (l_accept_state v)
                          (strip val) (l_tape v)
        \/ v' = mk_locals (l_transitions v) (l_start_state v) (l_accept_state v)
                          (l_reject_state v)
                          (if bool_decide (strip val = "") then "_" else strip val)).
Proof.
  unfold parse_line. cbv zeta.
  destruct (bool_decide (strip raw = "") || String.prefix "#" (strip raw)).
  { intros [= <-]. left. reflexivity. }
  destruct (contains "->" (strip raw)) eqn:Harrow.
  - destruct (contains_find _ _ Harrow) as [i Hi].
    rewrite (split1_found _ _ _ Hi).
    cbn [unpack2 mbind result_bind ret mret result_ret].
    destruct (unpack2 (strip <$> split "," 1 (string_take i (strip raw))))
      as [e|[st sym]] eqn:Hl; [discriminate|].
    cbn [mbind result_bind].
    destruct (unpack3 (strip <$> split "," 2
                (string_drop (i + String.length "->") (strip raw))))
      as [e|[[w m] q]] eqn:Hr; [discriminate|].
    cbn [mbind result_bind].
    destruct (unpack2_fmap_inr _ _ _ _ Hl) as (st0 & sym0 & _ & -> & ->).
    destruct (unpack3_fmap_inr _ _ _ _ _ Hr) as (w0 & m0 & q0 & _ & -> & -> & ->).
    intros [= <-]. right. left. exists st0, sym0, w0, m0, q0. reflexivity.
  - destruct (contains ":" (strip raw)) eqn:Hcolon.
    2: { intros [= <-]. left. reflexivity. }
    destruct (contains_find _ _ Hcolon) as [i Hi].
    rewrite (split1_found _ _ _ Hi).
    cbn [fmap list_fmap unpack2 mbind result_bind ret mret result_ret].
    repeat match goal with
           | |- context [bool_decide (upper ?k = ?c)] =>
             destruct (bool_decide (upper k = c))
           end;
      intros [= <-]; try (left; reflexivity);
      right; right; eexists;
      first [ left; reflexivity
            | right; left; reflexivity
            | right; right; left; reflexivity
            | right; right; right; reflexivity ].
Qed.

Lemma blank_keyword_ascii (s : string) :
  ascii_only s = true -> ascii_only (blank_keyword s) = true.
Proof. intros Hs. unfold blank_keyword. case_bool_decide; [reflexivity | exact Hs]. Qed.

(** On an ASCII line the loop keeps the locals ASCII. *)
Lemma parse_line_ascii (raw : string) (v v' : locals) :
  ascii_only raw = true -> locals_ascii v ->
  parse_line raw v = inr v' -> locals_ascii v'.
Proof.
  intros Hraw (Htr & Hs & Ha & Hr & Ht).
  pose proof (ascii_strip raw Hraw) as Hline.
  unfold parse_line. cbv zeta.
  destruct (bool_decide (strip raw = "") || String.prefix "#" (strip raw)).
  { intros [= <-]. repeat split; assumption. }
  destruct (contains "->" (strip raw)) eqn:Harrow.
  - destruct (contains_find _ _ Harrow) as [i Hi].
    rewrite (split1_found _ _ _ Hi).
    cbn [unpack2 mbind result_bind ret mret result_ret].
    destruct (unpack2 (strip <$> split "," 1 (string_take i (strip raw))))
      as [e|[st sym]] eqn:Hl; [discriminate|].
    cbn [mbind result_bind].
    destruct (unpack3 (strip <$> split "," 2
                (string_drop (i + String.length "->") (strip raw))))
      as [e|[[w m] q]] eqn:Hrt; [discriminate|].
    cbn [mbind result_bind].
    destruct (unpack2_fmap_inr _ _ _ _ Hl) as (st0 & sym0 & Hl0 & -> & ->).
    destruct (unpack3_fmap_inr _ _ _ _ _ Hrt) as (w0 & m0 & q0 & Hr0 & -> & -> & ->).
    pose proof (ascii_split "," 1 _ (ascii_take i _ Hline)) as Hleft.
    pose proof (ascii_split "," 2 _
                  (ascii_drop (i + String.length "->") _ Hline)) as Hright.
    rewrite Hl0 in Hleft. rewrite Hr0 in Hright.
    assert (Hst : ascii_only st0 = true) by (apply Hleft; set_solver).
    assert (Hsym : ascii_only sym0 = true) by (apply Hleft; set_solver).
    assert (Hw : ascii_only w0 = true) by (apply Hright; set_solver).
    assert (Hm : ascii_only m0 = true) by (apply Hright; set_solver).
    assert (Hq : ascii_only q0 = true) by (apply Hright; set_solver).
    intros [= <-]. split; [|repeat split; assumption].
    apply map_Forall_insert_2; [|exact Htr]. cbn.
    repeat split;
      first [ apply (blank_keyword_ascii (strip sym0)), ascii_strip, Hsym
            | apply (blank_keyword_ascii (strip w0)), ascii_strip, Hw
            | auto using ascii_strip, ascii_upper ].
  - destruct (contains ":" (strip raw)) eqn:Hcolon.
    2: { intros [= <-]. repeat split; assumption. }
    destruct (contains_find _ _ Hcolon) as [i Hi].
    rewrite (split1_found _ _ _ Hi).
    cbn [fmap list_fmap unpack2 mbind result_bind ret mret result_ret].
    pose proof (ascii_strip _ (ascii_drop (i + String.length ":") _ Hline)) as Hval.
    repeat match goal with
           | |- context [bool_decide (upper ?k = ?c)] =>
             destruct (bool_decide (upper k = c))
           end;
      intros [= <-]; unfold locals_ascii;
      cbn [l_transitions l_start_state l_accept_state l_reject_state l_tape];
      repeat split; try assumption.
    case_bool_decide; [reflexivity | exact Hval].
Qed.

Lemma parse_lines_ascii (lines : list string) (v v' : locals) :
  (forall raw, raw ∈ lines -> ascii_only raw = true) -> locals_ascii v ->
  parse_lines lines v = inr v' -> locals_ascii v'.
Proof.
  revert v. induction lines as [|raw lines IH]; intros v Hlines Hv; cbn [parse_lines].
  - intros [= <-]. exact Hv.
  - destruct (parse_line raw v) as [e|v1] eqn:H1; [discriminate|].
    cbn [mbind result_bind]. apply IH.
    + intros raw' Hin. apply Hlines, list_elem_of_further, Hin.
    + apply (parse_line_ascii raw v v1); [apply Hlines, list_elem_of_here | exact Hv | exact H1].
Qed.

Lemma initial_locals_ascii : locals_ascii initial_locals.
Proof.
  unfold locals_ascii. cbn. split; [apply map_Forall_empty|]. repeat split.
Qed.

(** ** The shape of what the parser returns *)

Lemma blank_keyword_not_blank (s : string) : lower (blank_keyword s) <> "blank".
Proof.
  unfold blank_keyword. case_bool_decide as H; [discriminate | exact H].
Qed.

Lemma blank_keyword_stripped (s : string) :
  strip (blank_keyword (strip s)) = blank_keyword (strip s).
Proof.
  unfold blank_keyword. case_bool_decide; [reflexivity | apply strip_idempotent].
Qed.

Lemma initial_locals_normal : locals_normal initial_locals.
Proof.
  unfold locals_normal. cbn. split; [apply map_Forall_empty|].
  repeat split; discriminate.
Qed.

Lemma parse_line_normal (raw : string) (v v' : locals) :
  locals_normal v -> parse_line raw v = inr v' -> locals_normal v'.
Proof.
  intros (Htr & Hs & Ha & Hr & Ht & Hne) Hparse.
  destruct (parse_line_inr raw v v' Hparse)
    as [-> | [(st & sym & w & m & q & ->) | (val & [-> | [-> | [-> | ->]]])]];
    unfold locals_normal; cbn [l_transitions l_start_state l_accept_state
                                l_reject_state l_tape];
    try (repeat split; solve [assumption | apply strip_idempotent]).
  - split; [|auto]. apply map_Forall_insert_2; [|exact Htr].
    cbn. rewrite upper_idempotent, strip_upper, !strip_idempotent.
    rewrite !blank_keyword_stripped.
    repeat split; apply blank_keyword_not_blank.
  - split; [exact Htr|]. repeat split; try assumption.
    + case_bool_decide; [reflexivity | apply strip_idempotent].
    + case_bool_decide; [discriminate | assumption].
Qed.

Lemma parse_lines_normal (lines : list string) (v v' : locals) :
  locals_normal v -> parse_lines lines v = inr v' -> locals_normal v'.
Proof.
  revert v. induction lines as [|raw lines IH]; intros v Hv; cbn [parse_lines].
  - intros [= <-]. exact Hv.
  - destruct (parse_line raw v) as [e|v1] eqn:H1; [discriminate|].
    cbn [mbind result_bind]. apply IH. apply (parse_line_normal raw v v1 Hv H1).
Qed.

Lemma parse_tm_description_inr (text : string)
    (tr : gmap (string * string) (string * string * string))
    (start accept reject tape : string) :
  parse_tm_description text = inr (tr, start, accept, reject, tape) ->
  parse_lines (splitlines text) initial_locals
  = inr (mk_locals tr start accept reject tape).
Proof.
  unfold parse_tm_description.
  destruct (parse_lines (splitlines text) initial_locals) as [e|[]]; [discriminate|].
  cbn. intros [= <- <- <- <- <-]. reflexivity.
Qed.

(** X9: in what [parse_tm_description] returns for a text of ASCII
    characters, every stored move is upper case (so [move.upper()] in [step]
    changes nothing), the keyword [blank] (in any case) is never a read or
    write symbol, and the tape text is never empty (so the machine built
    from it has one cell per character of that text).  The moves and symbols
    are ASCII themselves, so that [upper] and [lower] are Python's on
    them. *)
Theorem parse_result_normal (text : string)
    (tr : gmap (string * string) (string * string * string))
    (start accept reject tape : string) :
  ascii_only text = true ->
  parse_tm_description text = inr (tr, start, accept, reject, tape) ->
  tape <> ""
  /\ TuringMachine.tape (__init__ tape (Some tr) start accept reject "_") = chars tape
  /\ forall st sym w m q,
       tr !! (st, sym) = Some (w, m, q) ->
       (ascii_only m = true /\ upper m = m)
       /\ (ascii_only sym = true /\ lower sym <> "blank")
       /\ (ascii_only w = true /\ lower w <> "blank").
Proof.
  intros Hascii Hparse. apply parse_tm_description_inr in Hparse.
  destruct (parse_lines_normal _ _ _ initial_locals_normal Hparse)
    as (Htr & _ & _ & _ & _ & Hne).
  destruct (parse_lines_ascii _ _ _ (ascii_splitlines text Hascii)
              initial_locals_ascii Hparse) as (Hatr & _).
  cbn in Htr, Hatr, Hne. split; [exact Hne|]. split.
  - cbn. rewrite decide_False by exact Hne. reflexivity.
  - intros st sym w m q Hlook.
    destruct (Htr _ _ Hlook) as (Hm & Hsym & Hw & _).
    destruct (Hatr _ _ Hlook) as (_ & Hasym & Haw & Ham & _). auto.
Qed.

Lemma parse_result_normal_witness :
  "aaaaaaaaaaaaaaaaaaaaaaaaabbbb_" <> ""
  /\ TuringMachine.tape
       (__init__ "aaaaaaaaaaaaaaaaaaaaaaaaabbbb_" (Some table_replace)
                 "q0" "q_accept" "q_reject" "_")
     = chars "aaaaaaaaaaaaaaaaaaaaaaaaabbbb_"
  /\ forall st sym w m q,
       table_replace !! (st, sym) = Some (w, m, q) ->
       (ascii_only m = true /\ upper m = m)
       /\ (ascii_only sym = true /\ lower sym <> "blank")
       /\ (ascii_only w = true /\ lower w <> "blank").
Proof.
  apply (parse_result_normal sample_replace).
  - reflexivity.
  - vm_compute. reflexivity.
Defined.

(** X10: nothing the parser returns for a text of ASCII characters has white
    space around it: the state names, the symbols and the move of every
    table entry, the start, accept and reject states and the tape text are
    ASCII and unchanged by [strip]. *)
Theorem parse_result_stripped (text : string)
    (tr : gmap (string * string) (string * string * string))
    (start accept reject tape : string) :
  ascii_only text = true ->
  parse_tm_description text = inr (tr, start, accept, reject, tape) ->
  (ascii_only start = true /\ strip start = start)
  /\ (ascii_only accept = true /\ strip accept = accept)
  /\ (ascii_only reject = true /\ strip reject = reject)
  /\ (ascii_only tape = true /\ strip tape = tape)
  /\ forall st sym w m q,
       tr !! (st, sym) = Some (w, m, q) ->
       (ascii_only st = true /\ strip st = st)
       /\ (ascii_only sym = true /\ strip sym = sym)
       /\ (ascii_only w = true /\ strip w = w)
       /\ (ascii_only m = true /\ strip m = m)
       /\ (ascii_only q = true /\ strip q = q).
Proof.
  intros Hascii Hparse. apply parse_tm_description_inr in Hparse.
  destruct (parse_lines_normal _ _ _ initial_locals_normal Hparse)
    as (Htr & Hs & Ha & Hr & Ht & _).
  destruct (parse_lines_ascii _ _ _ (ascii_splitlines text Hascii)
              initial_locals_ascii Hparse) as (Hatr & Has & Haa & Har & Hat).
  cbn in Htr, Hs, Ha, Hr, Ht, Hatr, Has, Haa, Har, Hat.
  repeat (split; [split; assumption|]).
  intros st sym w m q Hlook.
  destruct (Htr _ _ Hlook) as (_ & _ & _ & H1 & H2 & H3 & H4 & H5).
  destruct (Hatr _ _ Hlook) as (A1 & A2 & A3 & A4 & A5). auto 10.
Qed.

Lemma parse_result_stripped_witness :
  (ascii_only "q0" = true /\ strip "q0" = "q0")
  /\ (ascii_only "q_accept" = true /\ strip "q_accept" = "q_accept")
  /\ (ascii_only "q_reject" = true /\ strip "q_reject" = "q_reject")
  /\ (ascii_only "111111111111111111_" = true
      /\ strip "111111111111111111_" = "111111111111111111_")
  /\ forall st sym w m q,
       table_unary_increment !! (st, sym) = Some (w, m, q) ->
       (ascii_only st = true /\ strip st = st)
       /\ (ascii_only sym = true /\ strip sym = sym)
       /\ (ascii_only w = true /\ strip w = w)
       /\ (ascii_only m = true /\ strip m = m)
       /\ (ascii_only q = true /\ strip q = q).
Proof.
  apply (parse_result_stripped sample_unary_increment).
  - reflexivity.
  - vm_compute. reflexivity.
Defined.

(** ** When the parser raises *)

Lemma parse_line_inl_malformed (raw : string) (v : locals) (e : exn) :
  parse_line raw v = inl e -> malformed_transition_line raw = true.
Proof.
  unfold parse_line, malformed_transition_line. cbv zeta.
  destruct (bool_decide (strip raw = "")); [discriminate|].
  destruct (String.prefix "#" (strip raw)); [discriminate|]. cbn [orb negb andb].
  destruct (contains "->" (strip raw)) eqn:Harrow.
  - intros Hparse. cbn [andb].
    destruct (contains_find _ _ Harrow) as [i Hi].
    rewrite (split1_found _ _ _ Hi) in Hparse |- *.
    cbn [unpack2 mbind result_bind ret mret result_ret] in Hparse.
    destruct (unpack2_split1 "," (string_take i (strip raw)))
      as [(a & b & Hl & _) | [_ Hl]].
    2: { rewrite Hl. reflexivity. }
    rewrite Hl in Hparse. cbn [mbind result_bind] in Hparse.
    destruct (unpack3_split2 "," (string_drop (i + String.length "->") (strip raw)))
      as [(a' & b' & c' & Hr & _) | (got & _ & Hr & Hlt)].
    + rewrite Hr in Hparse. discriminate Hparse.
    + rewrite Hr. apply orb_true_iff. right.
      apply negb_true_iff, Nat.eqb_neq. lia.
  - destruct (contains ":" (strip raw)) eqn:Hcolon; [|discriminate].
    destruct (contains_find _ _ Hcolon) as [i Hi].
    rewrite (split1_found _ _ _ Hi).
    cbn [fmap list_fmap unpack2 mbind result_bind ret mret result_ret].
    repeat case_bool_decide; discriminate.
Qed.

Lemma parse_lines_inl (lines : list string) (v : locals) (e : exn) :
  parse_lines lines v = inl e ->
  exists raw, raw ∈ lines /\ malformed_transition_line raw = true.
Proof.
  revert v. induction lines as [|raw lines IH]; intros v; cbn [parse_lines].
  - discriminate.
  - destruct (parse_line raw v) as [e'|v1] eqn:H1.
    + intros _. exists raw. split; [apply list_elem_of_here|].
      apply (parse_line_inl_malformed raw v e' H1).
    + cbn [mbind result_bind]. intros H.
      destruct (IH v1 H) as (raw' & Hin & Hbad).
      exists raw'. split; [apply list_elem_of_further, Hin | exact Hbad].
Qed.

(** X11: for a text of ASCII characters, [parse_tm_description] raises
    exactly when some line of the text is a transition line with too few
    fields (fewer than two left of the arrow or fewer than three right of
    it); every other such text, the empty one included, is parsed to a
    result. *)
Theorem parse_raises_iff_malformed (text : string) :
  ascii_only text = true ->
  (exists e, parse_tm_description text = inl e)
  <-> (exists raw, raw ∈ splitlines text /\ too_few_fields raw = true).
Proof.
  intros _. split.
  - intros [e He]. unfold parse_tm_description in He.
    destruct (parse_lines (splitlines text) initial_locals) as [e'|v] eqn:Hl;
      [|discriminate He].
    destruct (parse_lines_inl _ _ _ Hl) as (raw & Hin & Hbad).
    exists raw. rewrite <- malformed_is_too_few. auto.
  - intros (raw & Hin & Hbad). rewrite <- malformed_is_too_few in Hbad.
    destruct (parse_lines_malformed _ raw initial_locals Hin Hbad) as (e & He & _).
    exists e. unfold parse_tm_description. rewrite He. reflexivity.
Qed.

Lemma parse_raises_iff_malformed_witness :
  (exists e, parse_tm_description ("START: q1" ++ nl ++ "q0 -> b,R,q0") = inl e)
  <-> (exists raw,
         raw ∈ splitlines ("START: q1" ++ nl ++ "q0 -> b,R,q0")
         /\ too_few_fields raw = true).
Proof.
  apply (parse_raises_iff_malformed ("START: q1" ++ nl ++ "q0 -> b,R,q0")).
  reflexivity.
Defined.

(** ** Lines without effect *)

Lemma parse_line_ignored (raw : string) (v : locals) :
  ignored_line raw = true -> parse_line raw v = inr v.
Proof.
  unfold ignored_line, parse_line. cbv zeta.
  destruct (bool_decide (strip raw = "") || String.prefix "#" (strip raw));
    [reflexivity|].
  cbn [orb]. destruct (contains "->" (strip raw)); [discriminate|].
  cbn [negb andb]. destruct (contains ":" (strip raw)) eqn:Hcolon; [|reflexivity].
  cbn [negb orb].
  destruct (contains_find _ _ Hcolon) as [i Hi].
  rewrite (split1_found _ _ _ Hi).
  cbn [fmap list_fmap unpack2 mbind result_bind ret mret result_ret].
  rewrite !andb_true_iff, !negb_true_iff. intros [[[-> ->] ->] ->]. reflexivity.
Qed.

(** X12: among lines of ASCII characters, blank lines, comment lines, lines
    with neither "->" nor ":" and directives with a key other than START,
    ACCEPT, REJECT or TAPE have no effect: removing them from the lines
    changes neither the locals the loop ends with nor the exception it
    raises; an ASCII text with only such lines parses to the defaults. *)
Theorem ignored_lines_have_no_effect :
  (forall lines v,
     (forall raw, raw ∈ lines -> ascii_only raw = true) ->
     parse_lines lines v
     = parse_lines (List.filter (fun raw => negb (ignored_line raw)) lines) v)
  /\ (forall text,
        ascii_only text = true ->
        (forall raw, raw ∈ splitlines text -> ignored_line raw = true) ->
        parse_tm_description text = inr (∅, "q0", "q_accept", "q_reject", "_")).
Proof.
  assert (Hfilter : forall lines v,
            parse_lines lines v
            = parse_lines (List.filter (fun raw => negb (ignored_line raw)) lines) v).
  { induction lines as [|raw lines IH]; intros v; [reflexivity|].
    cbn [List.filter]. destruct (ignored_line raw) eqn:Hi; cbn [negb parse_lines].
    - rewrite (parse_line_ignored raw v Hi). cbn [mbind result_bind]. apply IH.
    - destruct (parse_line raw v) as [e|v1]; [reflexivity|].
      cbn [mbind result_bind]. apply IH. }
  split; [intros lines v _; apply Hfilter|].
  intros text _ Hall. unfold parse_tm_description. rewrite Hfilter.
  assert (Hnil : List.filter (fun raw => negb (ignored_line raw)) (splitlines text) = []).
  { induction (splitlines text) as [|raw lines IH]; [reflexivity|].
    cbn [List.filter]. rewrite (Hall raw) by apply list_elem_of_here.
    cbn [negb]. apply IH. intros raw' Hin. apply Hall, list_elem_of_further, Hin. }
  rewrite Hnil. reflexivity.
Qed.

Lemma ignored_lines_have_no_effect_witness :
  parse_lines ["# nothing here"; "START: s"; ""; "halt"; "colour: red"] initial_locals
  = parse_lines
      (List.filter (fun raw => negb (ignored_line raw))
         ["# nothing here"; "START: s"; ""; "halt"; "colour: red"]) initial_locals
  /\ parse_tm_description
       ("# nothing here" ++ nl ++ nl ++ "halt" ++ nl ++ "colour: red")
     = inr (∅, "q0", "q_accept", "q_reject", "_").
Proof.
  split.
  - apply (proj1 ignored_lines_have_no_effect).
    intros raw Hin. apply list_elem_of_In in Hin. cbn in Hin.
    intuition (subst; reflexivity).
  - apply (proj2 ignored_lines_have_no_effect); [reflexivity|].
    intros raw Hin. apply list_elem_of_In in Hin. vm_compute in Hin.
    intuition (subst; reflexivity).
Defined.

(** ** Lines in the documented format *)

Lemma token_char_spec (c : ascii) :
  token_char c = true ->
  is_space c = false /\ c <> ","%char /\ c <> ">"%char.
Proof.
  unfold token_char. rewrite !andb_true_iff, !negb_true_iff.
  intros [[Hs Hc] Hg]. split; [exact Hs|].
  split; intros ->; discriminate.
Qed.

Lemma prefix_char (c d : ascii) (s : string) :
  c <> d -> String.prefix (String c EmptyString) (String d s) = false.
Proof. intros Hne. cbn. destruct (ascii_dec c d); [contradiction | reflexivity]. Qed.

Lemma option_fmap_plus_0 (o : option nat) : Nat.add 0 <$> o = o.
Proof. destruct o; reflexivity. Qed.

Lemma option_fmap_plus_S (n : nat) (o : option nat) :
  S <$> (Nat.add n <$> o) = Nat.add (S n) <$> o.
Proof. destruct o; reflexivity. Qed.

(** Searching for a one-character separator skips a prefix without it. *)
Lemma find_char_app (c : ascii) (s t : string) :
  all_chars (fun d => negb (Ascii.eqb d c)) s = true ->
  find (String c EmptyString) (s ++ t)
  = Nat.add (String.length s) <$> find (String c EmptyString) t.
Proof.
  induction s as [|d s IH]; intros Hs.
  - change ("" ++ t) with t. symmetry. apply option_fmap_plus_0.
  - cbn [all_chars] in Hs. apply andb_true_iff in Hs as [Hd Hs].
    apply negb_true_iff, Ascii.eqb_neq in Hd.
    change (String d s ++ t) with (String d (s ++ t)).
    cbn [find]. rewrite prefix_char by congruence.
    rewrite (IH Hs). apply option_fmap_plus_S.
Qed.

(** Searching for the arrow skips a prefix without [>], when what follows
    does not begin with [>]. *)
Lemma find_arrow_app (s t : string) :
  all_chars (fun d => negb (Ascii.eqb d ">")) s = true ->
  String.prefix ">" t = false ->
  find "->" (s ++ t) = Nat.add (String.length s) <$> find "->" t.
Proof.
  induction s as [|d s IH]; intros Hs Ht.
  - change ("" ++ t) with t. symmetry. apply option_fmap_plus_0.
  - cbn [all_chars] in Hs. apply andb_true_iff in Hs as [Hd Hs].
    change (String d s ++ t) with (String d (s ++ t)).
    assert (Hnext : String.prefix ">" (s ++ t) = false).
    { destruct s as [|e s'].
      - exact Ht.
      - cbn [all_chars] in Hs. apply andb_true_iff in Hs as [He _].
        apply negb_true_iff, Ascii.eqb_neq in He.
        change (String e s' ++ t) with (String e (s' ++ t)).
        apply prefix_char. congruence. }
    assert (Hpre : String.prefix "->" (String d (s ++ t)) = false).
    { cbn [String.prefix]. destruct (ascii_dec "-" d); [exact Hnext | reflexivity]. }
    cbn [find]. rewrite Hpre, (IH Hs Ht). apply option_fmap_plus_S.
Qed.

Lemma string_take_app (s t : string) : string_take (String.length s) (s ++ t) = s.
Proof.
  induction s as [|c s IH]; [destruct t; reflexivity|].
  change (String c s ++ t) with (String c (s ++ t)).
  cbn [String.length string_take]. rewrite IH. reflexivity.
Qed.

Lemma string_drop_app (n : nat) (s t : string) :
  string_drop (String.length s + n) (s ++ t) = string_drop n t.
Proof.
  induction s as [|c s IH]; [reflexivity|].
  change (String c s ++ t) with (String c (s ++ t)).
  cbn [String.length Nat.add string_drop]. exact IH.
Qed.

Lemma all_chars_impl (p p' : ascii -> bool) (s : string) :
  (forall c, p c = true -> p' c = true) ->
  all_chars p s = true -> all_chars p' s = true.
Proof.
  intros Himp. induction s as [|c s IH]; [reflexivity|].
  cbn [all_chars]. rewrite !andb_true_iff. intros [Hc Hs]. auto.
Qed.

Lemma token_no_comma (s : string) :
  all_chars token_char s = true ->
  all_chars (fun d => negb (Ascii.eqb d ",")) s = true.
Proof.
  apply all_chars_impl. intros c Hc.
  destruct (token_char_spec c Hc) as (_ & Hcomma & _).
  apply negb_true_iff, Ascii.eqb_neq, Hcomma.
Qed.

Lemma token_no_gt (s : string) :
  all_chars token_char s = true ->
  all_chars (fun d => negb (Ascii.eqb d ">")) s = true.
Proof.
  apply all_chars_impl. intros c Hc.
  destruct (token_char_spec c Hc) as (_ & _ & Hgt).
  apply negb_true_iff, Ascii.eqb_neq, Hgt.
Qed.

Lemma token_lstrip (s t : string) :
  token s -> lstrip (s ++ t) = s ++ t.
Proof.
  intros [Hne Hs]. destruct s as [|c s]; [contradiction|].
  cbn [all_chars] in Hs. apply andb_true_iff in Hs as [Hc _].
  destruct (token_char_spec c Hc) as (Hsp & _).
  change (String c s ++ t) with (String c (s ++ t)).
  apply lstrip_not_space, Hsp.
Qed.

(** [rstrip] stops at a character that is not white space. *)
Lemma rstrip_app_token (s t : string) :
  token t -> rstrip (s ++ t) = s ++ t.
Proof.
  intros [Hne Ht]. induction s as [|c s IH].
  - change ("" ++ t) with t. clear Hne. induction t as [|c t IHt]; [reflexivity|].
    cbn [all_chars] in Ht. apply andb_true_iff in Ht as [Hc Ht].
    destruct (token_char_spec c Hc) as (Hsp & _).
    cbn [rstrip]. rewrite (IHt Ht). destruct t; [rewrite Hsp|]; reflexivity.
  - change (String c s ++ t) with (String c (s ++ t)).
    cbn [rstrip]. rewrite IH.
    destruct (s ++ t) as [|d u] eqn:E; [|reflexivity].
    destruct (append_empty _ _ E) as [_ Hte]. contradiction.
Qed.

Lemma append_nil_r (s : string) : s ++ "" = s.
Proof.
  induction s as [|c s IH]; [reflexivity|].
  change (String c s ++ "") with (String c (s ++ "")). rewrite IH. reflexivity.
Qed.

Lemma token_strip (s : string) : token s -> strip s = s.
Proof.
  intros Hs. unfold strip.
  pose proof (token_lstrip s "" Hs) as Hl. rewrite append_nil_r in Hl.
  rewrite Hl. apply (rstrip_app_token "" s Hs).
Qed.

Lemma token_strip_space_after (s : string) : token s -> strip (s ++ " ") = s.
Proof.
  intros Hs. unfold strip. rewrite (token_lstrip s " " Hs).
  destruct Hs as [Hne Hs]. induction s as [|c s IH]; [contradiction|].
  cbn [all_chars] in Hs. apply andb_true_iff in Hs as [Hc Hs].
  destruct (token_char_spec c Hc) as (Hsp & _).
  change (String c s ++ " ") with (String c (s ++ " ")).
  cbn [rstrip]. destruct s as [|d s'].
  - cbn. rewrite Hsp. reflexivity.
  - rewrite IH by (try discriminate; exact Hs). reflexivity.
Qed.

Lemma token_strip_space_before (s : string) : token s -> strip (String " " s) = s.
Proof. intros Hs. unfold strip. cbn [lstrip is_space]. apply (token_strip s Hs). Qed.

Lemma append_assoc (a b c : string) : (a ++ b) ++ c = a ++ (b ++ c).
Proof.
  induction a as [|x a IH]; [reflexivity|].
  change (String x a ++ b) with (String x (a ++ b)).
  change (String x (a ++ b) ++ c) with (String x ((a ++ b) ++ c)).
  rewrite IH. reflexivity.
Qed.

Lemma find_at_start (c : ascii) (t : string) :
  find (String c EmptyString) (String c t) = Some 0%nat.
Proof.
  cbn. destruct (ascii_dec c c); [|contradiction]. destruct t; reflexivity.
Qed.

(** Splitting at a one-character separator: the first field is what stands
    before the first separator. *)
Lemma split_char_first (c : ascii) (k : nat) (s t : string) :
  all_chars (fun d => negb (Ascii.eqb d c)) s = true ->
  split (String c EmptyString) (S k) (s ++ String c t)
  = s :: split (String c EmptyString) k t.
Proof.
  intros Hs. cbn [split]. rewrite (find_char_app c s _ Hs), find_at_start.
  cbn [fmap option_fmap option_map]. rewrite Nat.add_0_r.
  rewrite string_take_app, string_drop_app. reflexivity.
Qed.

Lemma split_char_last (c : ascii) (k : nat) (s : string) :
  all_chars (fun d => negb (Ascii.eqb d c)) s = true ->
  split (String c EmptyString) k s = [s].
Proof.
  intros Hs. destruct k as [|k]; [reflexivity|]. cbn [split].
  pose proof (find_char_app c s "" Hs) as Hf. rewrite append_nil_r in Hf.
  rewrite Hf. reflexivity.
Qed.

(** Splitting at the arrow. *)
Lemma split_arrow_first (s t : string) :
  all_chars (fun d => negb (Ascii.eqb d ">")) s = true ->
  split "->" 1 (s ++ "->" ++ t) = [s; t].
Proof.
  intros Hs. cbn [split].
  rewrite (find_arrow_app s ("->" ++ t) Hs) by reflexivity.
  assert (H0 : find "->" ("->" ++ t) = Some 0%nat) by (destruct t; reflexivity).
  rewrite H0.
  cbn [fmap option_fmap option_map]. rewrite Nat.add_0_r.
  rewrite string_take_app, string_drop_app. reflexivity.
Qed.

Lemma rstrip_fixed_app (s t : string) :
  rstrip t = t -> t <> "" ->
  rstrip (s ++ t) = s ++ t /\ s ++ t <> "".
Proof.
  intros Ht Hne. induction s as [|c s [IH IHne]]; [auto|].
  change (String c s ++ t) with (String c (s ++ t)). split; [|discriminate].
  cbn [rstrip]. rewrite IH. destruct (s ++ t); [contradiction | reflexivity].
Qed.

Lemma token_rstrip (s : string) : token s -> rstrip s = s.
Proof. intros Hs. apply (rstrip_app_token "" s Hs). Qed.

Lemma transition_line_stripped (st sym w m q : string) :
  token st -> token q ->
  strip (transition_line st sym w m q) = transition_line st sym w m q.
Proof.
  intros Hst Hq. unfold strip, transition_line.
  rewrite (token_lstrip st _ Hst).
  destruct (rstrip_fixed_app "," q (token_rstrip q Hq) (proj1 Hq)) as [R1 N1].
  destruct (rstrip_fixed_app m _ R1 N1) as [R2 N2].
  destruct (rstrip_fixed_app "," _ R2 N2) as [R3 N3].
  destruct (rstrip_fixed_app w _ R3 N3) as [R4 N4].
  destruct (rstrip_fixed_app " -> " _ R4 N4) as [R5 N5].
  destruct (rstrip_fixed_app sym _ R5 N5) as [R6 N6].
  destruct (rstrip_fixed_app "," _ R6 N6) as [R7 N7].
  destruct (rstrip_fixed_app st _ R7 N7) as [R8 _].
  exact R8.
Qed.

Lemma transition_line_shape (st sym w m q : string) :
  transition_line st sym w m q
  = (st ++ "," ++ sym ++ " ") ++ "->" ++ (" " ++ w ++ "," ++ m ++ "," ++ q).
Proof. unfold transition_line. rewrite !append_assoc. reflexivity. Qed.

Lemma transition_line_fields (st sym w m q : string) :
  token st -> token sym -> token w -> token m -> token q ->
  contains "->" (transition_line st sym w m q) = true
  /\ split "->" 1 (transition_line st sym w m q)
     = [st ++ "," ++ sym ++ " "; " " ++ w ++ "," ++ m ++ "," ++ q]
  /\ strip <$> split "," 1 (st ++ "," ++ sym ++ " ") = [st; sym]
  /\ strip <$> split "," 2 (" " ++ w ++ "," ++ m ++ "," ++ q) = [w; m; q].
Proof.
  intros Hst Hsym Hw Hm Hq.
  assert (Hp : all_chars (fun d => negb (Ascii.eqb d ">")) (st ++ "," ++ sym ++ " ")
               = true).
  { rewrite all_chars_app, (token_no_gt st (proj2 Hst)).
    change ("," ++ sym ++ " ") with (String "," (sym ++ " ")).
    cbn [all_chars]. rewrite all_chars_app, (token_no_gt sym (proj2 Hsym)).
    reflexivity. }
  assert (Hsplit : split "->" 1 (transition_line st sym w m q)
                   = [st ++ "," ++ sym ++ " "; " " ++ w ++ "," ++ m ++ "," ++ q]).
  { rewrite transition_line_shape. apply split_arrow_first, Hp. }
  split.
  - unfold contains. cbn [split] in Hsplit.
    destruct (find "->" (transition_line st sym w m q)); [reflexivity|].
    discriminate Hsplit.
  - split; [exact Hsplit|]. split.
    + change (st ++ "," ++ sym ++ " ") with (st ++ String "," (sym ++ " ")).
      rewrite (split_char_first "," 0 st _ (token_no_comma st (proj2 Hst))).
      cbn [split fmap list_fmap].
      rewrite (token_strip st Hst), (token_strip_space_after sym Hsym). reflexivity.
    + change (" " ++ w ++ "," ++ m ++ "," ++ q)
        with (String " " w ++ String "," (m ++ String "," q)).
      rewrite (split_char_first "," 1 (String " " w)).
      2: { cbn [all_chars]. rewrite (token_no_comma w (proj2 Hw)). reflexivity. }
      rewrite (split_char_first "," 0 m _ (token_no_comma m (proj2 Hm))).
      cbn [split fmap list_fmap].
      rewrite (token_strip_space_before w Hw), (token_strip m Hm), (token_strip q Hq).
      reflexivity.
Qed.

Lemma parse_line_transition (st sym w m q : string) (v : locals) :
  token st -> String.prefix "#" st = false ->
  token sym -> token w -> token m -> token q ->
  parse_line (transition_line st sym w m q) v
  = inr (mk_locals
           (<[(st, blank_keyword sym) := (blank_keyword w, upper m, q)]>
              (l_transitions v))
           (l_start_state v) (l_accept_state v) (l_reject_state v) (l_tape v)).
Proof.
  intros Hst Hhash Hsym Hw Hm Hq.
  destruct (transition_line_fields st sym w m q Hst Hsym Hw Hm Hq)
    as (Hc & Hsplit & Hleft & Hright).
  unfold parse_line. cbv zeta.
  rewrite (transition_line_stripped st sym w m q Hst Hq).
  assert (Hne : bool_decide (transition_line st sym w m q = "") = false).
  { apply bool_decide_eq_false_2. unfold transition_line.
    destruct st; [destruct Hst; contradiction | discriminate]. }
  assert (Hnc : String.prefix "#" (transition_line st sym w m q) = false).
  { unfold transition_line. destruct st as [|c st']; [destruct Hst; contradiction|].
    change (String c st' ++ ?x) with (String c (st' ++ x)).
    cbn [String.prefix] in Hhash |- *.
    destruct (ascii_dec "#" c); [|reflexivity]. destruct st'; discriminate Hhash. }
  rewrite Hne, Hnc, Hc, Hsplit. cbn [orb unpack2 mbind result_bind ret mret result_ret].
  rewrite Hleft. cbn [unpack2 mbind result_bind ret mret result_ret].
  rewrite Hright. reflexivity.
Qed.

Lemma parse_lines_app (l1 l2 : list string) (v : locals) :
  parse_lines (l1 ++ l2) v = (parse_lines l1 v ≫= parse_lines l2).
Proof.
  revert v. induction l1 as [|raw l1 IH]; intros v; [reflexivity|].
  cbn [app parse_lines]. destruct (parse_line raw v) as [e|v1]; [reflexivity|].
  cbn [mbind result_bind]. apply IH.
Qed.

(** X13: a line written in the documented format,
    [<state>,<symbol> -> <writeSymbol>,<move>,<nextState>], with fields made
    of ASCII characters other than white space, commas and [>] (and a state
    that does not start with #), registers exactly that rule, with [blank]
    read as the blank symbol and the move in upper case; and the last such
    line wins: put after any ASCII lines that parse, it sets the entry for
    its key, whatever the entry was, and changes no other entry and no
    directive. *)
Theorem documented_transition_line_registers_rule
    (st sym w m q : string) :
  ascii_token st -> String.prefix "#" st = false ->
  ascii_token sym -> ascii_token w -> ascii_token m -> ascii_token q ->
  (forall v,
     parse_line (transition_line st sym w m q) v
     = inr (mk_locals
              (<[(st, blank_keyword sym) := (blank_keyword w, upper m, q)]>
                 (l_transitions v))
              (l_start_state v) (l_accept_state v) (l_reject_state v) (l_tape v)))
  /\ (forall lines v v1,
        (forall raw, raw ∈ lines -> ascii_only raw = true) ->
        parse_lines lines v = inr v1 ->
        exists v2,
          parse_lines (lines ++ [transition_line st sym w m q]) v = inr v2
          /\ l_transitions v2 !! (st, blank_keyword sym)
             = Some (blank_keyword w, upper m, q)
          /\ (forall k, k <> (st, blank_keyword sym) ->
                l_transitions v2 !! k = l_transitions v1 !! k)
          /\ l_start_state v2 = l_start_state v1
          /\ l_accept_state v2 = l_accept_state v1
          /\ l_reject_state v2 = l_reject_state v1
          /\ l_tape v2 = l_tape v1).
Proof.
  intros [Hst _] Hhash [Hsym _] [Hw _] [Hm _] [Hq _].
  split; [intros v; apply parse_line_transition; assumption|].
  intros lines v v1 _ Hlines. eexists. split.
  - rewrite parse_lines_app, Hlines. cbn [mbind result_bind parse_lines].
    rewrite (parse_line_transition st sym w m q v1) by assumption. reflexivity.
  - cbn [l_transitions l_start_state l_accept_state l_reject_state l_tape].
    split; [apply lookup_insert_eq|]. split; [|auto].
    intros k Hk. apply lookup_insert_ne. congruence.
Qed.

Lemma documented_transition_line_registers_rule_witness :
  (forall v,
     parse_line (transition_line "q0" "Blank" "b" "r" "q1") v
     = inr (mk_locals
              (<[("q0", blank_keyword "Blank") := (blank_keyword "b", upper "r", "q1")]>
                 (l_transitions v))
              (l_start_state v) (l_accept_state v) (l_reject_state v) (l_tape v)))
  /\ (forall lines v v1,
        (forall raw, raw ∈ lines -> ascii_only raw = true) ->
        parse_lines lines v = inr v1 ->
        exists v2,
          parse_lines (lines ++ [transition_line "q0" "Blank" "b" "r" "q1"]) v = inr v2
          /\ l_transitions v2 !! ("q0", blank_keyword "Blank")
             = Some (blank_keyword "b", upper "r", "q1")
          /\ (forall k, k <> ("q0", blank_keyword "Blank") ->
                l_transitions v2 !! k = l_transitions v1 !! k)
          /\ l_start_state v2 = l_start_state v1
          /\ l_accept_state v2 = l_accept_state v1
          /\ l_reject_state v2 = l_reject_state v1
          /\ l_tape v2 = l_tape v1).
Proof.
  apply (documented_transition_line_registers_rule "q0" "Blank" "b" "r" "q1");
    first [ reflexivity
          | split; [split; [discriminate | reflexivity] | reflexivity] ].
Defined.

(** ** Directive lines *)

Lemma token_char_upper_char (c : ascii) : token_char (upper_char c) = token_char c.
Proof. destruct c as [[] [] [] [] [] [] [] []]; reflexivity. Qed.

Lemma colon_upper_char (c : ascii) :
  Ascii.eqb (upper_char c) ":" = Ascii.eqb c ":".
Proof. destruct c as [[] [] [] [] [] [] [] []]; reflexivity. Qed.

Lemma hash_upper_char (c : ascii) :
  Ascii.eqb (upper_char c) "#" = Ascii.eqb c "#".
Proof. destruct c as [[] [] [] [] [] [] [] []]; reflexivity. Qed.

Lemma all_chars_upper (p : ascii -> bool) (s : string) :
  (forall c, p (upper_char c) = p c) ->
  all_chars p (upper s) = all_chars p s.
Proof.
  intros Hp. unfold upper. induction s as [|c s IH]; [reflexivity|].
  cbn [string_map all_chars]. rewrite Hp, IH. reflexivity.
Qed.

Lemma directive_key_chars (key : string) :
  directive_key (upper key) ->
  token key
  /\ all_chars (fun d => negb (Ascii.eqb d ":")) key = true
  /\ String.prefix "#" key = false.
Proof.
  intros Hk.
  assert (Htok : all_chars token_char key = true).
  { rewrite <- (all_chars_upper token_char key token_char_upper_char).
    destruct Hk as [-> | [-> | [-> | ->]]]; reflexivity. }
  assert (Hcolon : all_chars (fun d => negb (Ascii.eqb d ":")) key = true).
  { rewrite <- (all_chars_upper (fun d => negb (Ascii.eqb d ":")) key).
    - destruct Hk as [-> | [-> | [-> | ->]]]; reflexivity.
    - intros c. rewrite colon_upper_char. reflexivity. }
  assert (Hne : key <> "").
  { intros ->. destruct Hk as [H | [H | [H | H]]]; discriminate H. }
  split; [split; assumption|]. split; [exact Hcolon|].
  destruct key as [|c key']; [contradiction|].
  cbn [String.prefix]. destruct (ascii_dec "#" c) as [<-|]; [|reflexivity].
  destruct Hk as [H | [H | [H | H]]]; discriminate H.
Qed.

Lemma find_arrow_none (s : string) :
  all_chars (fun d => negb (Ascii.eqb d ">")) s = true -> contains "->" s = false.
Proof.
  intros Hs. unfold contains.
  pose proof (find_arrow_app s "" Hs eq_refl) as Hf.
  rewrite append_nil_r in Hf. rewrite Hf. reflexivity.
Qed.

Lemma find_arrow_after_char (c : ascii) (s : string) :
  c <> "-"%char -> contains "->" (String c s) = contains "->" s.
Proof.
  intros Hc. unfold contains. cbn [find String.prefix].
  destruct (ascii_dec "-" c) as [Heq|_]; [congruence|].
  destruct (find "->" s); reflexivity.
Qed.

(** A directive line [key ":" rest], already stripped and without arrow. *)
Lemma parse_line_directive (key rest : string) (v : locals) :
  directive_key (upper key) ->
  contains "->" rest = false ->
  strip (key ++ String ":" rest) = key ++ String ":" rest ->
  parse_line (key ++ String ":" rest) v
  = inr (assign_directive (upper key) (strip rest) v).
Proof.
  intros Hk Hrest Hstrip.
  destruct (directive_key_chars key Hk) as ((Hne & Htok) & Hcolon & Hhash).
  unfold parse_line. cbv zeta. rewrite Hstrip.
  assert (H1 : bool_decide (key ++ String ":" rest = "") = false).
  { apply bool_decide_eq_false_2. destruct key; [contradiction | discriminate]. }
  assert (H2 : String.prefix "#" (key ++ String ":" rest) = false).
  { destruct key as [|c key']; [contradiction|].
    change (String c key' ++ ?x) with (String c (key' ++ x)).
    cbn [String.prefix] in Hhash |- *.
    destruct (ascii_dec "#" c); [|reflexivity]. destruct key'; discriminate Hhash. }
  assert (H3 : contains "->" (key ++ String ":" rest) = false).
  { assert (Hr : find "->" (String ":" rest) = None).
    { pose proof (find_arrow_after_char ":" rest ltac:(discriminate)) as Hc.
      rewrite Hrest in Hc. unfold contains in Hc.
      destruct (find "->" (String ":" rest)); [discriminate Hc | reflexivity]. }
    unfold contains.
    rewrite (find_arrow_app key (String ":" rest) (token_no_gt key Htok) eq_refl), Hr.
    reflexivity. }
  assert (H4 : split ":" 1 (key ++ String ":" rest) = [key; rest]).
  { apply (split_char_first ":" 0 key rest Hcolon). }
  assert (H5 : contains ":" (key ++ String ":" rest) = true).
  { unfold contains. cbn [split] in H4.
    destruct (find ":" (key ++ String ":" rest)); [reflexivity | discriminate H4]. }
  rewrite H1, H2, H3, H5, H4.
  cbn [orb fmap list_fmap unpack2 mbind result_bind ret mret result_ret].
  rewrite (token_strip key (conj Hne Htok)). unfold assign_directive.
  repeat match goal with
         | |- context [bool_decide (upper key = ?c)] =>
           destruct (bool_decide (upper key = c))
         end; reflexivity.
Qed.

(** A non-empty string that [strip] leaves alone has no white space at
    either end. *)
Lemma stripped_ends (val : string) :
  val <> "" -> strip val = val -> lstrip val = val /\ rstrip val = val.
Proof.
  intros Hne Hs. destruct val as [|c val']; [contradiction|].
  destruct (is_space c) eqn:E.
  - exfalso. unfold strip in Hs. cbn [lstrip] in Hs. rewrite E in Hs.
    destruct (lstrip_starts val') as [H0 | (d & s' & Hd & Hsp)].
    + rewrite H0 in Hs. discriminate Hs.
    + rewrite Hd in Hs. destruct (rstrip_keeps_first d s' Hsp) as [r Hr].
      rewrite Hr in Hs. injection Hs as -> _. congruence.
  - assert (Hl : lstrip (String c val') = String c val')
      by (apply lstrip_not_space, E).
    split; [exact Hl|]. unfold strip in Hs. rewrite Hl in Hs. exact Hs.
Qed.

(** X14: directives, for a key and a value of ASCII characters.  The key
    is matched without regard to case.  A line [key: value], where the value
    is not empty, has no white space at its ends and contains no arrow (it may
    contain spaces and commas), sets the variable the key names to the value
    and nothing else; [key:] with no value sets a state name to the empty
    string, but the tape to a single blank.  A value with an arrow makes the
    line a transition line: [TAPE: a->b] raises. *)
Theorem directive_line_assigns (key val : string) :
  directive_key (upper key) ->
  ascii_only key = true -> ascii_only val = true ->
  val <> "" -> strip val = val -> contains "->" val = false ->
  (forall v,
     parse_line (key ++ ": " ++ val) v = inr (assign_directive (upper key) val v))
  /\ (forall v,
        parse_line (key ++ ":") v = inr (assign_directive (upper key) "" v))
  /\ (forall v,
        assign_directive "START" val v
        = mk_locals (l_transitions v) val (l_accept_state v) (l_reject_state v)
                    (l_tape v)
        /\ assign_directive "ACCEPT" val v
           = mk_locals (l_transitions v) (l_start_state v) val (l_reject_state v)
                       (l_tape v)
        /\ assign_directive "REJECT" val v
           = mk_locals (l_transitions v) (l_start_state v) (l_accept_state v) val
                       (l_tape v)
        /\ assign_directive "TAPE" val v
           = mk_locals (l_transitions v) (l_start_state v) (l_accept_state v)
                       (l_reject_state v) val
        /\ assign_directive "TAPE" "" v
           = mk_locals (l_transitions v) (l_start_state v) (l_accept_state v)
                       (l_reject_state v) "_"
        /\ assign_directive "START" "" v
           = mk_locals (l_transitions v) "" (l_accept_state v) (l_reject_state v)
                       (l_tape v))
  /\ (forall v, parse_line "TAPE: a->b" v = inl (ValueError_not_enough 2 1)).
Proof.
  intros Hk _ _ Hne Hstrip Harrow.
  destruct (directive_key_chars key Hk) as (Hkey & _ & _).
  destruct (stripped_ends val Hne Hstrip) as [Hl Hr].
  split; [|split; [|split]].
  - intros v. change (key ++ ": " ++ val) with (key ++ String ":" (String " " val)).
    rewrite parse_line_directive.
    + unfold strip. cbn [lstrip]. change (is_space " ") with true. cbv iota.
      rewrite Hl, Hr. reflexivity.
    + exact Hk.
    + rewrite find_arrow_after_char by discriminate. exact Harrow.
    + unfold strip. rewrite (token_lstrip key _ Hkey).
      apply (rstrip_fixed_app key (String ":" (String " " val))); [|discriminate].
      apply (rstrip_fixed_app ": " val Hr Hne).
  - intros v. change (key ++ ":") with (key ++ String ":" "").
    rewrite parse_line_directive.
    + reflexivity.
    + exact Hk.
    + reflexivity.
    + unfold strip. rewrite (token_lstrip key _ Hkey).
      apply (rstrip_fixed_app key ":"); [reflexivity | discriminate].
  - intros v. unfold assign_directive. cbn.
    rewrite (bool_decide_eq_false_2 _ Hne). auto 10.
  - intros v. reflexivity.
Qed.

Lemma directive_line_assigns_witness :
  parse_line ("tApE" ++ ": " ++ "0 1,1 0") initial_locals
  = inr (assign_directive (upper "tApE") "0 1,1 0" initial_locals).
Proof.
  refine (proj1 (directive_line_assigns "tApE" "0 1,1 0" _ _ _ _ _ _) initial_locals).
  - right. right. right. reflexivity.
  - reflexivity.
  - reflexivity.
  - discriminate.
  - reflexivity.
  - reflexivity.
Defined.

(** * The window *)

(** ** [reset_tm] and [parse_and_create_tm] *)

Lemma reset_tm_as_create (raw : string) (m : TuringMachine.t) :
  blank m = "_" ->
  UTMVisualizer.reset_tm raw (Some m) = UTMVisualizer.parse_and_create_tm raw (Some m).
Proof.
  intros Hb. unfold UTMVisualizer.reset_tm, UTMVisualizer.parse_and_create_tm.
  destruct (parse_tm_description raw) as [e|[[[[tr st] ac] rj] tp]]; [reflexivity|].
  unfold reset, __init__, set_state, set_head, set_tape. cbn. rewrite Hb.
  reflexivity.
Qed.

(** X15: the Reset button rebuilds the machine from the text: when the
    machine's blank is "_" (as it is for every machine the window creates),
    [reset_tm] leaves exactly the machine [parse_and_create_tm] would
    create from the same text, and both leave the machine alone when the
    text does not parse. *)
Theorem reset_tm_recreates (raw : string) (m : TuringMachine.t) :
  blank m = "_" ->
  UTMVisualizer.reset_tm raw (Some m) = UTMVisualizer.parse_and_create_tm raw (Some m)
  /\ ((exists e, parse_tm_description raw = inl e) ->
      UTMVisualizer.reset_tm raw (Some m) = Some m).
Proof.
  intros Hb. split; [apply reset_tm_as_create, Hb|].
  intros [e He]. unfold UTMVisualizer.reset_tm. rewrite He. reflexivity.
Qed.

Lemma reset_tm_recreates_witness :
  UTMVisualizer.reset_tm sample_move_right (Some scenario1)
  = UTMVisualizer.parse_and_create_tm sample_move_right (Some scenario1)
  /\ ((exists e, parse_tm_description sample_move_right = inl e) ->
      UTMVisualizer.reset_tm sample_move_right (Some scenario1) = Some scenario1).
Proof.
  apply (reset_tm_recreates sample_move_right scenario1). reflexivity.
Defined.

(** ** [update_display] *)

Lemma py_slice_lookup {A : Type} (l : list A) (start stop : Z) (k : nat) (x : A) :
  0 <= start ->
  py_slice l start stop !! k = Some x ->
  l !! (Z.to_nat start + k)%nat = Some x.
Proof.
  intros Hstart. unfold py_slice. cbv zeta.
  rewrite (decide_False (P := start < 0)) by lia.
  intros Hk. apply lookup_take_Some in Hk as [Hk _].
  rewrite lookup_drop in Hk.
  destruct (decide (start <= Z.of_nat (length l))) as [Hle|Hgt].
  - rewrite Z.min_l in Hk by lia. exact Hk.
  - rewrite Z.min_r in Hk by lia. rewrite Nat2Z.id in Hk.
    apply lookup_lt_Some in Hk. lia.
Qed.

Lemma py_slice_inside {A : Type} (l : list A) (a b : Z) :
  0 <= a <= b -> b <= Z.of_nat (length l) ->
  py_slice l a b = take (Z.to_nat (b - a)) (drop (Z.to_nat a) l)
  /\ Z.of_nat (length (py_slice l a b)) = b - a.
Proof.
  intros Hab Hb. unfold py_slice. cbv zeta.
  rewrite (decide_False (P := a < 0)) by lia.
  rewrite (decide_False (P := b < 0)) by lia.
  rewrite (Z.min_l a) by lia. rewrite (Z.min_l b) by lia.
  split; [reflexivity|]. rewrite length_take, length_drop. lia.
Qed.

(** What [update_display] draws at position [k] of the window. *)
Lemma update_display_lookup (tm : TuringMachine.t) (k : nat) (c : drawn_cell) :
  update_display (Some tm) !! k = Some c ->
  tape tm !! (Z.to_nat (Z.max 0 (head tm - 12)) + k)%nat = Some (text c)
  /\ pointer c = bool_decide (Z.max 0 (head tm - 12) + Z.of_nat k = head tm)
  /\ fill c = (if pointer c then "#bdf5bd" else "white").
Proof.
  unfold update_display. cbv zeta. change (25 / 2) with 12.
  intros Hc. apply list_lookup_imap_Some in Hc as (sym & Hsym & ->).
  cbn [text pointer fill]. split; [|split; reflexivity].
  eapply py_slice_lookup; [|exact Hsym]. lia.
Qed.

(** X16: when the head is on the tape, [update_display] draws at most 25
    cells, a run of consecutive tape cells; exactly one of them carries the
    pointer and the highlight colour, it shows the symbol under the head,
    and the left edge of its rectangle is between -3 and 537 on the canvas
    of width 580; every other cell is white and has no pointer. *)
Theorem update_display_shows_head (tm : TuringMachine.t) (sym : string) :
  0 <= head tm < Z.of_nat (length (tape tm)) ->
  tape tm !! Z.to_nat (head tm) = Some sym ->
  (length (update_display (Some tm)) <= 25)%nat
  /\ exists k x,
       update_display (Some tm) !! k
       = Some (mk_cell (x, 160, x + 45, 160 + 50) "#bdf5bd" sym true)
       /\ -3 <= x <= 537
       /\ forall k' c,
            update_display (Some tm) !! k' = Some c ->
            tape tm !! (Z.to_nat (Z.max 0 (head tm - 12)) + k')%nat = Some (text c)
            /\ (pointer c = true -> k' = k)
            /\ (fill c = "#bdf5bd" -> k' = k)
            /\ (k' <> k -> pointer c = false /\ fill c = "white").
Proof.
  intros Hin Hsym.
  set (L := Z.max 0 (head tm - 12)).
  set (R := Z.min (Z.of_nat (length (tape tm))) (head tm + 12 + 1)).
  destruct (py_slice_inside (tape tm) L R) as [Hvis Hlen]; [lia | lia |].
  assert (Hcells : update_display (Some tm)
                   = imap (fun k sym =>
                       mk_cell
                         ((580 - Z.of_nat (length (py_slice (tape tm) L R)) * 45) / 2
                          + (L + Z.of_nat k - L) * 45, 160,
                          (580 - Z.of_nat (length (py_slice (tape tm) L R)) * 45) / 2
                          + (L + Z.of_nat k - L) * 45 + 45, 160 + 50)
                         (if bool_decide (L + Z.of_nat k = head tm)
                          then "#bdf5bd" else "white")
                         sym (bool_decide (L + Z.of_nat k = head tm)))
                     (py_slice (tape tm) L R)) by reflexivity.
  split.
  - rewrite Hcells, length_imap. lia.
  - exists (Z.to_nat (head tm - L)).
    exists ((580 - (R - L) * 45) / 2 + (head tm - L) * 45).
    split; [|split].
    + rewrite Hcells, list_lookup_imap, Hvis.
      rewrite lookup_take_lt by lia. rewrite lookup_drop.
      replace (Z.to_nat L + Z.to_nat (head tm - L))%nat with (Z.to_nat (head tm)) by lia.
      rewrite Hsym. cbn [fmap option_fmap option_map].
      rewrite <- Hvis, Hlen.
      rewrite (bool_decide_eq_true_2 (L + Z.of_nat (Z.to_nat (head tm - L)) = head tm))
        by lia.
      replace (L + Z.of_nat (Z.to_nat (head tm - L)) - L) with (head tm - L) by lia.
      reflexivity.
    + pose proof (Z.div_mod (580 - (R - L) * 45) 2 ltac:(lia)) as Hdm.
      pose proof (Z.mod_pos_bound (580 - (R - L) * 45) 2 ltac:(lia)) as Hmb.
      lia.
    + intros k' c Hc.
      destruct (update_display_lookup tm k' c Hc) as (Ht & Hp & Hf).
      fold L in Hp.
      assert (Hptr : pointer c = true -> k' = Z.to_nat (head tm - L)).
      { rewrite Hp. intros Hb. apply bool_decide_eq_true in Hb. lia. }
      assert (Hoff : k' <> Z.to_nat (head tm - L) -> pointer c = false).
      { intros Hk. rewrite Hp. apply bool_decide_eq_false_2. lia. }
      split; [exact Ht|]. split; [exact Hptr|]. split.
      * intros Hfill. apply Hptr. rewrite Hf in Hfill.
        destruct (pointer c); [reflexivity | discriminate Hfill].
      * intros Hk. rewrite Hf, (Hoff Hk). auto.
Qed.

Lemma update_display_shows_head_witness :
  (length (update_display (Some scenario1)) <= 25)%nat
  /\ exists k x,
       update_display (Some scenario1) !! k
       = Some (mk_cell (x, 160, x + 45, 160 + 50) "#bdf5bd" "a" true)
       /\ -3 <= x <= 537
       /\ forall k' c,
            update_display (Some scenario1) !! k' = Some c ->
            tape scenario1 !! (Z.to_nat (Z.max 0 (head scenario1 - 12)) + k')%nat
            = Some (text c)
            /\ (pointer c = true -> k' = k)
            /\ (fill c = "#bdf5bd" -> k' = k)
            /\ (k' <> k -> pointer c = false /\ fill c = "white").
Proof.
  apply (update_display_shows_head scenario1 "a").
  - vm_compute. split; [discriminate | reflexivity].
  - reflexivity.
Defined.

(** X17: when the head is off the tape, left of it or at or beyond its right
    end, as it is after a step that moved it over an end, [update_display]
    draws no pointer and highlights no cell. *)
Theorem update_display_head_off_tape (tm : TuringMachine.t) :
  head tm < 0 \/ head tm >= Z.of_nat (length (tape tm)) ->
  forall c, c ∈ update_display (Some tm) -> pointer c = false /\ fill c = "white".
Proof.
  intros Hoff c Hc. apply list_elem_of_lookup in Hc as [k Hk].
  destruct (update_display_lookup tm k c Hk) as (Ht & Hp & Hf).
  apply lookup_lt_Some in Ht.
  assert (Hfalse : pointer c = false).
  { rewrite Hp. apply bool_decide_eq_false_2. lia. }
  rewrite Hf, Hfalse. auto.
Qed.

Lemma update_display_head_off_tape_witness :
  pointer (mk_cell (267, 160, 312, 210) "white" "x" false) = false
  /\ fill (mk_cell (267, 160, 312, 210) "white" "x" false) = "white".
Proof.
  apply (update_display_head_off_tape (set_head scenario3 (-1))).
  - left. reflexivity.
  - vm_compute. constructor.
Defined.

(** ** The callbacks of the window *)

Lemma good_machine_init (tape_str : string)
    (tr : gmap (string * string) (string * string * string))
    (start accept reject : string) :
  good_machine (__init__ tape_str (Some tr) start accept reject "_").
Proof.
  unfold good_machine, head_near_tape. cbn.
  destruct (decide (tape_str = "")) as [_|Hne].
  - cbn. repeat split; lia.
  - pose proof (chars_nonempty tape_str Hne). repeat split; lia.
Qed.

Lemma good_machine_step (m m' : TuringMachine.t) (b : bool) :
  good_machine m -> step m = inr (b, m') -> good_machine m'.
Proof.
  intros (Hb & Hnear & Hlen) Hstep.
  destruct (step_head_near_tape m b m' Hnear Hstep) as [Hnear' Hlen'].
  destruct (step_outcome m) as (b0 & m0 & Hs & (_ & Hbl & _) & _).
  rewrite Hs in Hstep. injection Hstep as -> ->.
  unfold good_machine. rewrite Hbl. repeat split; [exact Hb | apply Hnear'.. | lia].
Qed.

Lemma good_machine_parse_and_create (raw : string) (m m' : TuringMachine.t) :
  good_machine m ->
  UTMVisualizer.parse_and_create_tm raw (Some m) = Some m' -> good_machine m'.
Proof.
  intros Hm. unfold UTMVisualizer.parse_and_create_tm.
  destruct (parse_tm_description raw) as [e|[[[[tr st] ac] rj] tp]].
  - intros [= <-]. exact Hm.
  - intros [= <-]. apply good_machine_init.
Qed.

Lemma good_machine_reset_tm (raw : string) (m m' : TuringMachine.t) :
  good_machine m ->
  UTMVisualizer.reset_tm raw (Some m) = Some m' -> good_machine m'.
Proof.
  intros Hm. destruct Hm as (Hb & Hrest).
  rewrite (reset_tm_as_create raw m Hb).
  apply good_machine_parse_and_create. split; assumption.
Qed.

Lemma parse_and_create_tm_some (raw : string) (m : TuringMachine.t) :
  exists m', UTMVisualizer.parse_and_create_tm raw (Some m) = Some m'.
Proof.
  unfold UTMVisualizer.parse_and_create_tm.
  destruct (parse_tm_description raw) as [e|[[[[tr st] ac] rj] tp]]; eauto.
Qed.

(** [_run_step] when the run is on and the timer has just fired or has not
    been set yet. *)
Lemma run_step_invariant (g : Window.w) (m : TuringMachine.t) :
  Window.tm g = Some m -> good_machine m ->
  Window.running g = true -> Window.pending g = [] ->
  exists b m',
    step m = inr (b, m')
    /\ Window.tm (Window._run_step g) = Some m'
    /\ Window.running (Window._run_step g) = b
    /\ Window.text (Window._run_step g) = Window.text g
    /\ window_invariant (Window._run_step g).
Proof.
  intros Htm Hm Hrun Hpend.
  destruct (step_outcome m) as (b & m' & Hs & _).
  pose proof (good_machine_step m m' b Hm Hs) as Hm'.
  exists b, m'. split; [exact Hs|].
  unfold Window._run_step. rewrite Htm, Hrun, Hs. cbn [negb].
  destruct b; cbn [negb Window.tm Window.running Window.text].
  - split; [reflexivity|]. split; [reflexivity|]. split; [reflexivity|].
    unfold window_invariant. cbn. rewrite Hpend. split; eauto.
  - split; [reflexivity|]. split; [reflexivity|]. split; [reflexivity|].
    unfold window_invariant. cbn. split; eauto.
Qed.

Lemma filter_singleton (id : nat) :
  List.filter (fun i => negb (Nat.eqb i id)) [id] = [].
Proof. cbn. rewrite Nat.eqb_refl. reflexivity. Qed.

Lemma handle_invariant (e : Window.event) (g : Window.w) :
  window_invariant g -> window_invariant (Window.handle e g).
Proof.
  intros [(m & Htm & Hm) Hrun]. destruct e as [s|sel| | | | | |id]; cbn [Window.handle].
  - split; [exists m; auto | exact Hrun].
  - unfold Window.load_example, Window.parse_and_create_tm. cbn.
    destruct (parse_and_create_tm_some
                (Window.text_get
                   (Window.mk (load_example_sample sel) (Window.tm g)
                      (Window.running g) (Window.after_id g) (Window.pending g)
                      (Window.next_id g))) m) as [m' Hm'].
    split; [|exact Hrun]. exists m'. cbn. rewrite Htm. split; [exact Hm'|].
    apply (good_machine_parse_and_create _ m m' Hm Hm').
  - unfold Window.parse_and_create_tm.
    destruct (parse_and_create_tm_some (Window.text_get g) m) as [m' Hm'].
    split; [|exact Hrun]. exists m'. cbn. rewrite Htm. split; [exact Hm'|].
    apply (good_machine_parse_and_create _ m m' Hm Hm').
  - unfold Window.reset_tm. split; [|exact Hrun]. cbn. rewrite Htm.
    destruct Hm as (Hb & Hrest).
    rewrite (reset_tm_as_create (Window.text_get g) m Hb).
    destruct (parse_and_create_tm_some (Window.text_get g) m) as [m' Hm'].
    exists m'. split; [exact Hm'|].
    apply (good_machine_parse_and_create _ m m' (conj Hb Hrest) Hm').
  - unfold Window.step_once. rewrite Htm.
    destruct (step_outcome m) as (b & m' & Hs & _). rewrite Hs.
    split; [|exact Hrun]. exists m'. split; [reflexivity|].
    apply (good_machine_step m m' b Hm Hs).
  - unfold Window.run_auto. rewrite Htm.
    destruct (Window.running g) eqn:Hr.
    + split; [exists m; auto|]. rewrite Hr. exact Hrun.
    + destruct (run_step_invariant
                  (Window.mk (Window.text g) (Window.tm g) true (Window.after_id g)
                     (Window.pending g) (Window.next_id g)) m Htm Hm eq_refl Hrun)
        as (b & m' & _ & _ & _ & _ & Hinv).
      rewrite Htm in Hinv. exact Hinv.
  - unfold Window.stop_run. destruct (Window.running g) eqn:Hr; cbn [negb].
    + destruct Hrun as (id & Hp & Ha). rewrite Ha, Hp, filter_singleton.
      split; [exists m; auto | reflexivity].
    + split; [exists m; auto|]. rewrite Hr. exact Hrun.
  - unfold Window.timer_fires. case_bool_decide as Hin.
    + destruct (Window.running g) eqn:Hr.
      * destruct Hrun as (id' & Hp & Ha). rewrite Hp in Hin |- *.
        apply list_elem_of_singleton in Hin. subst id'. rewrite filter_singleton.
        destruct (run_step_invariant
                    (Window.mk (Window.text g) (Window.tm g) (Window.running g)
                       (Window.after_id g) [] (Window.next_id g)) m Htm Hm Hr eq_refl)
          as (b & m' & _ & _ & _ & _ & Hinv).
        rewrite Hr in Hinv. exact Hinv.
      * rewrite Hrun in Hin. inversion Hin.
    + split; [exists m; auto | exact Hrun].
Qed.

Lemma init_invariant : window_invariant Window.init.
Proof.
  unfold window_invariant. split; [|reflexivity].
  unfold Window.init, Window.load_example, Window.parse_and_create_tm,
    UTMVisualizer.parse_and_create_tm. cbn [Window.tm].
  destruct (parse_tm_description _) as [e|[[[[tr st] ac] rj] tp]] eqn:Hp.
  - vm_compute in Hp. discriminate Hp.
  - eexists. split; [reflexivity | apply good_machine_init].
Qed.

Lemma handle_all_invariant (es : list Window.event) (g : Window.w) :
  window_invariant g -> window_invariant (Window.handle_all es g).
Proof.
  revert g. induction es as [|e es IH]; intros g Hg; [exact Hg|].
  cbn. apply IH, handle_invariant, Hg.
Qed.

(** X18: whatever the user does (editing the text, pressing the buttons in
    any order) and whenever the timers fire, the window holds a machine
    whose blank is "_", whose tape is not empty and whose head is within one
    cell of the tape; while a run is on exactly one timer is pending, the one
    [after_id] names, and otherwise none is; so once Stop has been pressed a
    timer that fires does nothing. *)
Theorem window_keeps_one_timer (es : list Window.event) :
  let g := Window.handle_all es Window.init in
  (exists m,
     Window.tm g = Some m
     /\ blank m = "_"
     /\ -1 <= head m <= Z.of_nat (length (tape m))
     /\ (1 <= length (tape m))%nat)
  /\ (Window.running g = true ->
      exists id, Window.pending g = [id] /\ Window.after_id g = Some id)
  /\ (Window.running g = false -> Window.pending g = [])
  /\ (forall id, Window.timer_fires id (Window.stop_run g) = Window.stop_run g).
Proof.
  cbv zeta. set (g := Window.handle_all es Window.init).
  destruct (handle_all_invariant es Window.init init_invariant)
    as [(m & Htm & Hb & Hnear & Hlen) Hrun].
  fold g in Htm, Hrun.
  split; [exists m; auto|].
  split; [intros Hr; rewrite Hr in Hrun; exact Hrun|].
  split; [intros Hr; rewrite Hr in Hrun; exact Hrun|].
  intros id. unfold Window.stop_run, Window.timer_fires.
  destruct (Window.running g) eqn:Hr; cbn [negb].
  - destruct Hrun as (id' & Hp & Ha). rewrite Ha, Hp, filter_singleton.
    cbn [Window.pending]. rewrite bool_decide_eq_false_2; [reflexivity|].
    intros Hin. inversion Hin.
  - rewrite Hrun. rewrite bool_decide_eq_false_2; [reflexivity|].
    intros Hin. inversion Hin.
Qed.

Lemma run_step_running (g : Window.w) (m : TuringMachine.t) :
  Window.tm g = Some m -> Window.running g = true -> Window.pending g = [] ->
  exists b m',
    step m = inr (b, m')
    /\ Window.tm (Window._run_step g) = Some m'
    /\ Window.running (Window._run_step g) = b
    /\ (if b then exists id, Window.pending (Window._run_step g) = [id]
        else Window.pending (Window._run_step g) = [] /\ halted m').
Proof.
  intros Htm Hrun Hpend.
  destruct (step_outcome m) as (b & m' & Hs & _ & Hfalse & _).
  exists b, m'. split; [exact Hs|].
  unfold Window._run_step. rewrite Htm, Hrun, Hs. cbn [negb].
  destruct b; cbn [negb Window.tm Window.running Window.pending].
  - rewrite Hpend. eauto.
  - auto.
Qed.

(** The state of a run after the first step and [n] timers. *)
Lemma run_auto_timers (g : Window.w) (m : TuringMachine.t) (n : nat) :
  Window.tm g = Some m -> Window.running g = false -> Window.pending g = [] ->
  exists bs m',
    steps (S n) m = inr (bs, m')
    /\ Window.tm (Nat.iter n Window.next_timer (Window.run_auto g)) = Some m'
    /\ (if Window.running (Nat.iter n Window.next_timer (Window.run_auto g))
        then bs = replicate (S n) true
             /\ exists id,
                  Window.pending (Nat.iter n Window.next_timer (Window.run_auto g))
                  = [id]
        else halted m' /\ false ∈ bs
             /\ Window.pending (Nat.iter n Window.next_timer (Window.run_auto g))
                = []).
Proof.
  intros Htm Hrun Hpend. induction n as [|n IH].
  - change (Nat.iter 0 Window.next_timer (Window.run_auto g))
      with (Window.run_auto g).
    assert (Hra : Window.run_auto g
                  = Window._run_step
                      (Window.mk (Window.text g) (Some m) true (Window.after_id g)
                         (Window.pending g) (Window.next_id g))).
    { unfold Window.run_auto. rewrite Htm, Hrun. reflexivity. }
    rewrite Hra.
    destruct (run_step_running
                (Window.mk (Window.text g) (Some m) true (Window.after_id g)
                   (Window.pending g) (Window.next_id g)) m eq_refl eq_refl Hpend)
      as (b & m' & Hs & Htm' & Hr' & Hp').
    exists [b], m'. split; [apply (steps_S 0 _ _ _ [] _ Hs); reflexivity|].
    split; [exact Htm'|]. rewrite Hr'. destruct b.
    + split; [reflexivity | exact Hp'].
    + destruct Hp' as [Hp' Hh]. split; [exact Hh|].
      split; [apply list_elem_of_here | exact Hp'].
  - destruct IH as (bs & m' & Hss & Htm' & Hcase).
    change (Nat.iter (S n) Window.next_timer (Window.run_auto g))
      with (Window.next_timer (Nat.iter n Window.next_timer (Window.run_auto g))).
    set (gn := Nat.iter n Window.next_timer (Window.run_auto g)) in *.
    destruct (Window.running gn) eqn:Hr.
    + destruct Hcase as (-> & id & Hp).
      unfold Window.next_timer. rewrite Hp. unfold Window.timer_fires.
      rewrite Hp, bool_decide_eq_true_2 by apply list_elem_of_here.
      rewrite filter_singleton.
      destruct (run_step_running
                  (Window.mk (Window.text gn) (Window.tm gn) (Window.running gn)
                     (Window.after_id gn) [] (Window.next_id gn)) m' Htm' Hr eq_refl)
        as (b & m'' & Hs & Htm'' & Hr'' & Hp'').
      exists (replicate (S n) true ++ [b])%list, m''.
      split.
      { replace (S (S n)) with (S n + 1)%nat by lia.
        apply (steps_app _ _ _ _ _ _ _ Hss).
        apply (steps_S 0 _ _ _ [] _ Hs). reflexivity. }
      split; [exact Htm''|]. rewrite Hr''. destruct b.
      * split; [|exact Hp''].
        replace (S (S n)) with (S n + 1)%nat by lia.
        rewrite replicate_add. reflexivity.
      * destruct Hp'' as [Hp'' Hh]. split; [exact Hh|].
        split; [|exact Hp'']. apply elem_of_app. right. apply list_elem_of_here.
    + destruct Hcase as (Hh & Hfalse & Hp).
      unfold Window.next_timer. rewrite Hp, Hr.
      exists (bs ++ [false])%list, m'. split.
      { replace (S (S n)) with (S n + 1)%nat by lia.
        apply (steps_app _ _ _ _ _ _ _ Hss).
        apply (steps_S 0 _ _ _ [] _ (step_when_halted m' Hh)). reflexivity. }
      split; [exact Htm'|]. split; [exact Hh|]. split; [|exact Hp].
      apply elem_of_app. left. exact Hfalse.
Qed.

Lemma false_not_in_replicate_true (n : nat) : false ∉ replicate n true.
Proof. intros H. apply elem_of_replicate in H as [H _]. discriminate H. Qed.

(** X19: Run is repeated stepping.  From a window that is not running,
    pressing Run and letting [n] timers fire leaves the machine that [n + 1]
    calls of [step] leave; the run is still on exactly when all those calls
    returned true, and when it is off the machine is halted and no timer is
    left. *)
Theorem run_auto_is_repeated_step (g : Window.w) (m : TuringMachine.t) (n : nat) :
  Window.tm g = Some m -> Window.running g = false -> Window.pending g = [] ->
  exists bs m',
    steps (S n) m = inr (bs, m')
    /\ Window.tm (Nat.iter n Window.next_timer (Window.run_auto g)) = Some m'
    /\ (Window.running (Nat.iter n Window.next_timer (Window.run_auto g)) = true
        <-> bs = replicate (S n) true)
    /\ (Window.running (Nat.iter n Window.next_timer (Window.run_auto g)) = false ->
        halted m'
        /\ Window.pending (Nat.iter n Window.next_timer (Window.run_auto g)) = []).
Proof.
  intros Htm Hrun Hpend.
  destruct (run_auto_timers g m n Htm Hrun Hpend) as (bs & m' & Hss & Htm' & Hcase).
  exists bs, m'. split; [exact Hss|]. split; [exact Htm'|].
  destruct (Window.running (Nat.iter n Window.next_timer (Window.run_auto g))).
  - destruct Hcase as (-> & _). split; [tauto | discriminate].
  - destruct Hcase as (Hh & Hfalse & Hp). split; [|auto].
    split; [discriminate|]. intros ->.
    exfalso. apply (false_not_in_replicate_true _ Hfalse).
Qed.

Lemma run_auto_is_repeated_step_witness :
  exists bs m',
    steps 6 scenario1 = inr (bs, m')
    /\ Window.tm (Nat.iter 5 Window.next_timer
                    (Window.run_auto (Window.mk "" (Some scenario1) false None [] 0)))
       = Some m'
    /\ (Window.running
          (Nat.iter 5 Window.next_timer
             (Window.run_auto (Window.mk "" (Some scenario1) false None [] 0))) = true
        <-> bs = replicate 6 true)
    /\ (Window.running
          (Nat.iter 5 Window.next_timer
             (Window.run_auto (Window.mk "" (Some scenario1) false None [] 0))) = false ->
        halted m'
        /\ Window.pending
             (Nat.iter 5 Window.next_timer
                (Window.run_auto (Window.mk "" (Some scenario1) false None [] 0))) = []).
Proof.
  apply (run_auto_is_repeated_step
           (Window.mk "" (Some scenario1) false None [] 0) scenario1 5);
    reflexivity.
Defined.
